(** * mongo-mcp: the output bounding engine, the response formatter,
      the connection registry and the tool handlers of [src/index.ts]

    The development embeds the functions of [src/index.ts] as Rocq
    functions and proves the properties the specification states about
    them.  JavaScript strings are modelled by [string]: one [ascii] per
    code unit, so that [length] is [String.prototype.length] and
    [substring 0 n] is [slice(0, n)].  Numbers are integer valued and are
    printed in decimal (integers of magnitude below 2^53; other numbers
    are outside the model, and no statement depends on the digits).  An
    object is the list of its own properties in the order [Object.keys]
    enumerates them; property names are unique in a JavaScript object,
    which theorems about object nodes assume as [NoDup] of the keys. *)

From Stdlib Require Import ZArith List String Ascii Bool Arith Lia.
From Stdlib Require Import Numbers.DecimalString Numbers.DecimalNat.
Import ListNotations.

Open Scope string_scope.

(** ** The data model *)

Module Json.

Unset Elimination Schemes.

Inductive TreeValue : Type :=
| TNull
| TBool (b : bool)
| TNum (n : Z)
| TStr (s : string)
| TArr (items : list TreeValue)
| TObj (props : list (string * TreeValue)).

Set Elimination Schemes.

(** Induction over a value gives the hypothesis for every element of an
    array and for every property value of an object. *)
Definition TreeValue_nested_ind (P : TreeValue -> Prop)
    (Hnull : P TNull)
    (Hbool : forall b, P (TBool b))
    (Hnum : forall n, P (TNum n))
    (Hstr : forall s, P (TStr s))
    (Harr : forall items, Forall P items -> P (TArr items))
    (Hobj : forall props, Forall (fun kv => P (snd kv)) props -> P (TObj props))
  : forall v, P v :=
  fix go (v : TreeValue) : P v :=
    match v with
    | TNull => Hnull
    | TBool b => Hbool b
    | TNum n => Hnum n
    | TStr s => Hstr s
    | TArr items =>
        Harr items
          ((fix all (l : list TreeValue) : Forall P l :=
              match l with
              | [] => Forall_nil P
              | x :: l' => Forall_cons x (go x) (all l')
              end) items)
    | TObj props =>
        Hobj props
          ((fix all (l : list (string * TreeValue))
              : Forall (fun kv => P (snd kv)) l :=
              match l with
              | [] => Forall_nil _
              | kv :: l' =>
                  Forall_cons (P := fun kv => P (snd kv)) kv (go (snd kv)) (all l')
              end) props)
    end.

(** Nesting depth: the number of nested calls a depth-first walk makes. *)
Fixpoint depth (v : TreeValue) : nat :=
  match v with
  | TArr items => S (fold_right (fun x d => Nat.max (depth x) d) 0 items)
  | TObj props => S (fold_right (fun kv d => Nat.max (let '(_, x) := kv in depth x) d) 0 props)
  | _ => 0
  end.

(** *** Number to text *)

(** [`${n}`] for a non-negative integer [n]. *)
Definition dec (n : nat) : string := NilEmpty.string_of_uint (Nat.to_uint n).

(** [String(n)] for an integer-valued number of magnitude below 2^53
    (from 1e21 on JavaScript prints an exponent). *)
Definition render_number (n : Z) : string := NilEmpty.string_of_int (Z.to_int n).

(** *** [JSON.stringify] *)

Definition dquote : ascii := "034"%char.
Definition backslash : ascii := "092"%char.
Definition newline : ascii := "010"%char.

Definition hex_digit (n : nat) : ascii :=
  nth n (list_ascii_of_string "0123456789abcdef") "0"%char.

(** One code unit of a quoted JSON string (QuoteJSONString). *)
Definition quote_unit (c : ascii) : string :=
  let n := N_of_ascii c in
  if (n =? 8)%N then String backslash "b"
  else if (n =? 9)%N then String backslash "t"
  else if (n =? 10)%N then String backslash "n"
  else if (n =? 12)%N then String backslash "f"
  else if (n =? 13)%N then String backslash "r"
  else if (n =? 34)%N then String backslash (String dquote "")
  else if (n =? 92)%N then String backslash (String backslash "")
  else if (n <? 32)%N then
    String backslash
      ("u00" ++ String (hex_digit (N.to_nat (n / 16)))
                  (String (hex_digit (N.to_nat (n mod 16))) ""))
  else String c "".

Fixpoint quote_units (s : string) : string :=
  match s with
  | EmptyString => ""
  | String c s' => quote_unit c ++ quote_units s'
  end.

Definition quote (s : string) : string :=
  String dquote (quote_units s ++ String dquote "").

(** SerializeJSONProperty with the indentation unit [gap] and the current
    indentation [indent]; [gap = ""] is the compact form. *)
Fixpoint serialize (gap indent : string) (v : TreeValue) : string :=
  let stepback := indent in
  let indent := indent ++ gap in
  let separator :=
    if (length gap =? 0)%nat then "," else "," ++ String newline indent in
  let wrap (opening closing properties : string) :=
    if (length gap =? 0)%nat then opening ++ properties ++ closing
    else opening ++ String newline indent ++ properties
           ++ String newline stepback ++ closing in
  match v with
  | TNull => "null"
  | TBool true => "true"
  | TBool false => "false"
  | TNum n => render_number n
  | TStr s => quote s
  | TArr [] => "[]"
  | TArr items =>
      wrap "[" "]" (concat separator (map (serialize gap indent) items))
  | TObj [] => "{}"
  | TObj props =>
      wrap "{" "}"
        (concat separator
           (map (fun kv => let '(k, x) := kv in
                   quote k ++ (if (length gap =? 0)%nat then ":" else ": ")
                     ++ serialize gap indent x) props))
  end.

(** [JSON.stringify(v)]. *)
Definition JSON_stringify (v : TreeValue) : string := serialize "" "" v.

(** [JSON.stringify(v, null, 2)]. *)
Definition JSON_stringify_indented (v : TreeValue) : string := serialize "  " "" v.

End Json.

Import Json.

(** ** The output bounding engine: [truncateForOutput] *)

Module Bounding.

(** Storing the own property [key]: an existing property keeps its
    place and takes the new value, a new one is added last. *)
Fixpoint store (key : string) (v : TreeValue)
    (result : list (string * TreeValue)) : list (string * TreeValue) :=
  match result with
  | [] => [(key, v)]
  | (k, x) :: rest =>
      if String.eqb k key then (k, v) :: rest
      else (k, x) :: store key v rest
  end.

(** [result[key] = v] on the object under construction, which starts as
    the literal [{}].  The name [__proto__] is the accessor that
    [Object.prototype] gives every such object: assigning to it changes
    the prototype at most and stores no property, so the name is not
    among the keys of the result.  Every other name is stored. *)
Definition assign (key : string) (v : TreeValue)
    (result : list (string * TreeValue)) : list (string * TreeValue) :=
  if String.eqb key "__proto__" then result else store key v result.

(** [for (const key of keys) result[key] = f(value[key])]. *)
Definition assign_each (f : TreeValue -> TreeValue) :=
  fix loop (props result : list (string * TreeValue)) {struct props}
      : list (string * TreeValue) :=
    match props with
    | [] => result
    | (key, x) :: rest => loop rest (assign key (f x) result)
    end.

(** The same loop over [keys.slice(0, n)]. *)
Definition assign_first (f : TreeValue -> TreeValue) :=
  fix loop (n : nat) (props result : list (string * TreeValue)) {struct props}
      : list (string * TreeValue) :=
    match n, props with
    | S n', (key, x) :: rest => loop n' rest (assign key (f x) result)
    | _, _ => result
    end.

Definition string_marker (truncated : string) (remaining : nat) : string :=
  truncated ++ "..." ++ dec remaining ++ " more characters".

Definition items_marker (remaining : nat) : string :=
  "..." ++ dec remaining ++ " more items".

Definition properties_marker (remaining : nat) : string :=
  "..." ++ dec remaining ++ " more properties".

Fixpoint truncateValue (value : TreeValue) : TreeValue :=
  match value with
  | TStr s =>
      if (200 <? length s)%nat then
        let truncated := substring 0 200 s in
        let remaining := (length s - 200)%nat in
        TStr (string_marker truncated remaining)
      else value
  | TArr items =>
      if (List.length items <=? 1)%nat then TArr (map truncateValue items)
      else
        match items with
        | first :: _ =>
            let firstItem := truncateValue first in
            let remaining := (List.length items - 1)%nat in
            TArr [firstItem; TStr (items_marker remaining)]
        | [] => TArr []
        end
  | TObj props =>
      if (List.length props <=? 200)%nat then
        TObj (assign_each truncateValue props [])
      else
        let result := assign_first truncateValue 200 props [] in
        let remaining := (List.length props - 200)%nat in
        TObj (assign (properties_marker remaining) (TStr "...") result)
  | _ => value
  end.

Definition default_maxOutputLength : Z := 25000.

Definition truncateForOutput (obj : TreeValue) (maxOutputLength : Z) : TreeValue :=
  let estimatedSize := Z.of_nat (length (JSON_stringify obj)) in
  if (estimatedSize <=? maxOutputLength)%Z then obj
  else truncateValue obj.

(** *** The same walk with a bound on the depth of nested calls

    [fuel] is the number of nested activations of [truncateValue] that
    are still allowed; [None] says the bound was reached. *)

Fixpoint map_fuel (f : TreeValue -> option TreeValue) (items : list TreeValue)
    : option (list TreeValue) :=
  match items with
  | [] => Some []
  | x :: rest =>
      match f x with
      | Some y =>
          match map_fuel f rest with
          | Some ys => Some (y :: ys)
          | None => None
          end
      | None => None
      end
  end.

Fixpoint assign_fuel (f : TreeValue -> option TreeValue)
    (props result : list (string * TreeValue))
    : option (list (string * TreeValue)) :=
  match props with
  | [] => Some result
  | (key, x) :: rest =>
      match f x with
      | Some y => assign_fuel f rest (assign key y result)
      | None => None
      end
  end.

Fixpoint truncateValue_fuel (fuel : nat) (value : TreeValue) : option TreeValue :=
  match fuel with
  | O => None
  | S fuel' =>
      match value with
      | TStr s =>
          if (200 <? length s)%nat then
            Some (TStr (string_marker (substring 0 200 s) (length s - 200)))
          else Some value
      | TArr items =>
          if (List.length items <=? 1)%nat then
            option_map TArr (map_fuel (truncateValue_fuel fuel') items)
          else
            match items with
            | first :: _ =>
                match truncateValue_fuel fuel' first with
                | Some firstItem =>
                    Some (TArr [firstItem;
                                TStr (items_marker (List.length items - 1))])
                | None => None
                end
            | [] => Some (TArr [])
            end
      | TObj props =>
          if (List.length props <=? 200)%nat then
            option_map TObj (assign_fuel (truncateValue_fuel fuel') props [])
          else
            match assign_fuel (truncateValue_fuel fuel') (firstn 200 props) [] with
            | Some result =>
                Some (TObj (assign (properties_marker (List.length props - 200))
                              (TStr "...") result))
            | None => None
            end
      | _ => Some value
      end
  end.

Definition truncateForOutput_fuel (fuel : nat) (obj : TreeValue)
    (maxOutputLength : Z) : option TreeValue :=
  let estimatedSize := Z.of_nat (length (JSON_stringify obj)) in
  if (estimatedSize <=? maxOutputLength)%Z then Some obj
  else truncateValue_fuel fuel obj.

End Bounding.

Import Bounding.

(** ** The response formatter: [formatJsonOutput] *)

Module Formatter.

(** The two regular expressions of [formatJsonOutput] are sequences of
    literal characters, the capturing group [(\d+)] and one optional
    character. *)
Inductive Atom : Type :=
| Lit (c : ascii)
| Digits
| Opt (c : ascii).

Definition is_digit (c : ascii) : bool :=
  let n := N_of_ascii c in ((48 <=? n) && (n <=? 57))%N.

Definition lits (s : string) : list Atom := map Lit (list_ascii_of_string s).

(** Backtracking match of [re] at the start of the input: the text of
    group 1 and the input left after the match.  [\d+] is greedy and
    gives digits back one at a time; [c?] first tries to take [c]. *)
Fixpoint exec (re : list Atom) : string -> option (string * string) :=
  match re with
  | [] => fun s => Some ("", s)
  | Lit c :: re' =>
      fun s =>
        match s with
        | String c' s' => if Ascii.eqb c c' then exec re' s' else None
        | EmptyString => None
        end
  | Opt c :: re' =>
      fun s =>
        let taken :=
          match s with
          | String c' s' => if Ascii.eqb c c' then exec re' s' else None
          | EmptyString => None
          end in
        match taken with
        | Some r => Some r
        | None => exec re' s
        end
  | Digits :: re' =>
      fix more (s : string) : option (string * string) :=
        match s with
        | String c s' =>
            if is_digit c then
              match more s' with
              | Some (group, rest) => Some (String c group, rest)
              | None =>
                  match exec re' s' with
                  | Some (_, rest) => Some (String c "", rest)
                  | None => None
                  end
              end
            else None
        | EmptyString => None
        end
  end.

(** A replacement string: literal text and [$1]. *)
Inductive Piece : Type :=
| Text (s : string)
| Group1.

Fixpoint expand (template : list Piece) (group : string) : string :=
  match template with
  | [] => ""
  | Text s :: rest => s ++ expand rest group
  | Group1 :: rest => group ++ expand rest group
  end.

(** [text.replace(/.../g, ...)]: matches are looked for from left to
    right; a match is replaced and the search goes on behind it, any
    other character is copied.  [find] never matches the empty string
    here, so [length text] steps reach the end of the text. *)
Fixpoint scan (find : string -> option (string * string))
    (subst : string -> string) (fuel : nat) (text : string) : string :=
  match fuel with
  | O => text
  | S fuel' =>
      match text with
      | EmptyString => ""
      | String c text' =>
          match find text with
          | Some (group, rest) => subst group ++ scan find subst fuel' rest
          | None => String c (scan find subst fuel' text')
          end
      end
  end.

Definition replace_all (find : string -> option (string * string))
    (subst : string -> string) (text : string) : string :=
  scan find subst (length text) text.

Definition replace (re : list Atom) (template : list Piece) (text : string) : string :=
  replace_all (exec re) (expand template) text.

(** [/"\.\.\.(\d+) more items"/g] *)
Definition re_items : list Atom :=
  (Lit dquote :: lits "..." ++ Digits :: lits " more items" ++ [Lit dquote])%list.

(** [/"\.\.\.(\d+) more properties": "\.\.\.?"/g] *)
Definition re_properties : list Atom :=
  (Lit dquote :: lits "..." ++ Digits :: lits " more properties"
     ++ Lit dquote :: lits ": " ++ Lit dquote :: lits ".."
     ++ [Opt "."%char; Lit dquote])%list.

Definition formatJsonOutput (data : TreeValue) : string :=
  let truncatedData := truncateForOutput data default_maxOutputLength in
  let outputText := JSON_stringify_indented truncatedData in
  let outputText :=
    replace re_items [Text "..."; Group1; Text " more items"] outputText in
  let outputText :=
    replace re_properties [Text "..."; Group1; Text " more properties"] outputText in
  outputText.

(** *** The rewrite as the specification words it

    A serialized array-truncation marker is the quoted string
    [...<n> more items]; a serialized object-truncation marker is the
    pair of the key [...<n> more properties] and the value [...];
    [<n>] is a non-empty run of decimal digits. *)

Fixpoint strip_prefix (p s : string) : option string :=
  match p with
  | EmptyString => Some s
  | String c p' =>
      match s with
      | String c' s' => if Ascii.eqb c c' then strip_prefix p' s' else None
      | EmptyString => None
      end
  end.

(** The longest run of digits at the start of the input, and what
    follows it. *)
Fixpoint span_digits (s : string) : string * string :=
  match s with
  | String c s' =>
      if is_digit c then
        let (n, rest) := span_digits s' in (String c n, rest)
      else ("", s)
  | EmptyString => ("", "")
  end.

Fixpoint all_digits (s : string) : bool :=
  match s with
  | EmptyString => true
  | String c s' => is_digit c && all_digits s'
  end.

Definition items_marker_text (n : string) : string :=
  String dquote ("..." ++ n ++ " more items" ++ String dquote "").

Definition items_annotation (n : string) : string := "..." ++ n ++ " more items".

Definition properties_marker_text (n : string) : string :=
  String dquote ("..." ++ n ++ " more properties" ++ String dquote (": " ++ quote "...")).

(** The same pair with the two-dot value [..]. *)
Definition properties_short_text (n : string) : string :=
  String dquote ("..." ++ n ++ " more properties" ++ String dquote (": " ++ quote "..")).

Definition properties_annotation (n : string) : string := "..." ++ n ++ " more properties".

(** A marker at the start of the input: its count and the input behind it. *)
Definition marker_at (opening closing : string) (s : string) : option (string * string) :=
  match strip_prefix opening s with
  | Some s1 =>
      let (n, s2) := span_digits s1 in
      match n with
      | EmptyString => None
      | String _ _ =>
          match strip_prefix closing s2 with
          | Some rest => Some (n, rest)
          | None => None
          end
      end
  | None => None
  end.

Definition items_marker_at : string -> option (string * string) :=
  marker_at (String dquote "...") (" more items" ++ String dquote "").

Definition properties_marker_at : string -> option (string * string) :=
  marker_at (String dquote "...")
    (" more properties" ++ String dquote (": " ++ quote "...")).

Definition properties_short_at : string -> option (string * string) :=
  marker_at (String dquote "...")
    (" more properties" ++ String dquote (": " ++ quote "..")).

(** Either form of the pair, the three-dot one first. *)
Definition properties_either_at (s : string) : option (string * string) :=
  match properties_marker_at s with
  | Some r => Some r
  | None => properties_short_at s
  end.

(** The rewritten text: markers found from left to right become
    annotations, every other character stays. *)
Definition unwrap_items (text : string) : string :=
  replace_all items_marker_at items_annotation text.

Definition unwrap_properties (text : string) : string :=
  replace_all properties_marker_at properties_annotation text.

Definition unwrap_properties_either (text : string) : string :=
  replace_all properties_either_at properties_annotation text.

End Formatter.

Import Formatter.

(** ** The connection registry and the tool handlers *)

Module Registry.

(** A thrown value: an [Error] with its message, or anything else. *)
Inductive Thrown : Type :=
| ErrorObj (message : string)
| NonError.

Inductive Outcome (A : Type) : Type :=
| Returned (a : A)
| Threw (e : Thrown).
Arguments Returned {A} a.
Arguments Threw {A} e.

(** What reaches the database driver, in the order it is called. *)
Inductive DriverCall : Type :=
| NewMongoClient (uri : string)
| Connect
| ClientDb (dbName : string)
| InsertOne (db coll : string) (document : TreeValue)
| FindToArray (db coll : string) (filter : TreeValue) (limit : option Z)
| UpdateOne (db coll : string) (filter update : TreeValue)
| UpdateMany (db coll : string) (filter update : TreeValue)
| DeleteOne (db coll : string) (filter : TreeValue)
| DeleteMany (db coll : string) (filter : TreeValue)
| AggregateToArray (db coll : string) (pipeline : list TreeValue)
| CountDocuments (db coll : string) (filter : TreeValue)
| ListCollections (db : string).

(** The driver is outside the program: each call answers from the calls
    made so far, and any of them may throw: the constructor, [connect],
    [client.db(name)] (it rejects some names), and the operations.  An
    operation on a collection stands for [db.collection(name)] followed
    by the operation, and answers with what either throws.  A cursor is
    run by [toArray], with the limit given to [cursor.limit] or [None]
    when it was not called. *)
Record Driver : Type := {
  newMongoClient : list DriverCall -> string -> option Thrown;
  connect : list DriverCall -> string -> option Thrown;
  clientDb : list DriverCall -> string -> option Thrown;
  insertOne : list DriverCall -> string -> string -> TreeValue -> Outcome string;
  findToArray :
    list DriverCall -> string -> string -> TreeValue -> option Z
    -> Outcome (list TreeValue);
  updateOne :
    list DriverCall -> string -> string -> TreeValue -> TreeValue -> Outcome (nat * nat);
  updateMany :
    list DriverCall -> string -> string -> TreeValue -> TreeValue -> Outcome (nat * nat);
  deleteOne : list DriverCall -> string -> string -> TreeValue -> Outcome nat;
  deleteMany : list DriverCall -> string -> string -> TreeValue -> Outcome nat;
  aggregateToArray :
    list DriverCall -> string -> string -> list TreeValue -> Outcome (list TreeValue);
  countDocuments : list DriverCall -> string -> string -> TreeValue -> Outcome nat;
  listCollections : list DriverCall -> string -> Outcome (list string)
}.

(** A database handle: [client.db(name)]. *)
Record Db : Type := { db_client : string; db_name : string }.

(** The process: the environment variable, the two module variables
    [mongoClient] and [databases], and the driver calls made so far. *)
Record State : Type := {
  MONGODB_URI : option string;
  mongoClient : option string;
  databases : list (string * Db);
  calls : list DriverCall
}.

Definition with_client (st : State) (uri : string) : State :=
  {| MONGODB_URI := MONGODB_URI st; mongoClient := Some uri;
     databases := databases st; calls := calls st |}.

Definition with_databases (st : State) (m : list (string * Db)) : State :=
  {| MONGODB_URI := MONGODB_URI st; mongoClient := mongoClient st;
     databases := m; calls := calls st |}.

Definition with_call (st : State) (c : DriverCall) : State :=
  {| MONGODB_URI := MONGODB_URI st; mongoClient := mongoClient st;
     databases := databases st; calls := (calls st ++ [c])%list |}.

(** [Map.prototype.get] and [Map.prototype.set]. *)
Fixpoint map_get (m : list (string * Db)) (k : string) : option Db :=
  match m with
  | [] => None
  | (k', d) :: m' => if String.eqb k' k then Some d else map_get m' k
  end.

Fixpoint map_set (m : list (string * Db)) (k : string) (d : Db) : list (string * Db) :=
  match m with
  | [] => [(k, d)]
  | (k', d') :: m' =>
      if String.eqb k' k then (k', d) :: m' else (k', d') :: map_set m' k d
  end.

(** Code that reads and writes the process state and may throw. *)
Definition M (A : Type) : Type := State -> Outcome A * State.

Definition ret {A} (a : A) : M A := fun st => (Returned a, st).

Definition throw {A} (e : Thrown) : M A := fun st => (Threw e, st).

Definition bind {A B} (m : M A) (k : A -> M B) : M B :=
  fun st =>
    match m st with
    | (Returned a, st') => k a st'
    | (Threw e, st') => (Threw e, st')
    end.

Definition try_catch {A} (m : M A) (handler : Thrown -> M A) : M A :=
  fun st =>
    match m st with
    | (Returned a, st') => (Returned a, st')
    | (Threw e, st') => handler e st'
    end.

Definition get_state : M State := fun st => (Returned st, st).

Definition put_state (st : State) : M unit := fun _ => (Returned tt, st).

Notation "x <- m ;; k" := (bind m (fun x => k))
  (at level 61, m at next level, right associativity).
Notation "m ;;; k" := (bind m (fun _ => k))
  (at level 61, right associativity).

(** [!uri] holds for an unset variable and for the empty string. *)
Definition getMongoUri : M string :=
  st <- get_state ;;
  match MONGODB_URI st with
  | Some (String c s) => ret (String c s)
  | _ => throw (ErrorObj "MONGODB_URI environment variable is not set")
  end.

Section Handlers.

Variable driver : Driver.

(** A call of the driver: it is recorded, then it answers. *)
Definition call {A} (c : DriverCall) (answer : list DriverCall -> Outcome A) : M A :=
  fun st =>
    let st' := with_call st c in
    (answer (calls st), st').

Definition attempt (c : DriverCall) (answer : list DriverCall -> option Thrown) : M unit :=
  call c (fun log => match answer log with
                     | Some e => Threw e
                     | None => Returned tt
                     end).

(** [databases.get(dbName)] after [databases.set(dbName, db)] is [db]
    (see [map_get_set]); when [mongoClient.db] throws nothing is cached;
    [mongoClient] is not null when [mongoClient.db] is reached, a null
    there is a [TypeError]. *)
Definition ensureConnection (dbName : string) : M Db :=
  st <- get_state ;;
  (match mongoClient st with
   | None =>
       uri <- getMongoUri ;;
       attempt (NewMongoClient uri) (fun log => newMongoClient driver log uri) ;;;
       st1 <- get_state ;;
       put_state (with_client st1 uri) ;;;
       attempt Connect (fun log => connect driver log uri)
   | Some _ => ret tt
   end) ;;;
  st2 <- get_state ;;
  match map_get (databases st2) dbName with
  | Some db => ret db
  | None =>
      match mongoClient st2 with
      | Some client =>
          attempt (ClientDb dbName) (fun log => clientDb driver log dbName) ;;;
          st3 <- get_state ;;
          let db := {| db_client := client; db_name := dbName |} in
          put_state (with_databases st3 (map_set (databases st3) dbName db)) ;;;
          ret db
      | None =>
          throw (ErrorObj "Cannot read properties of null (reading 'db')")
      end
  end.

(** [error instanceof Error ? error.message : 'Unknown error'] *)
Definition message_of (e : Thrown) : string :=
  match e with
  | ErrorObj m => m
  | NonError => "Unknown error"
  end.

Definition failing (prefix : string) {A} (body : M A) : M A :=
  try_catch body (fun e => throw (ErrorObj (prefix ++ message_of e))).

(** A validated tool invocation; an optional parameter that was not
    given is [None]. *)
Inductive Invocation : Type :=
| CreateDocument (database collection : string) (document : TreeValue)
| FindDocuments (database collection : string)
    (filter : option TreeValue) (limit : option Z)
| UpdateDocument (database collection : string)
    (filter update : TreeValue) (updateMany : option bool)
| DeleteDocument (database collection : string)
    (filter : TreeValue) (deleteMany : option bool)
| Aggregate (database collection : string) (pipeline : list TreeValue)
| CountDocumentsTool (database collection : string) (filter : option TreeValue)
| ListCollectionsTool (database : string).

Definition default {A} (given : option A) (d : A) : A :=
  match given with
  | Some a => a
  | None => d
  end.

(** [if (limit)]: a number is truthy unless it is zero. *)
Definition truthy (limit : option Z) : bool :=
  match limit with
  | Some n => negb (n =? 0)%Z
  | None => false
  end.

Definition two_newlines : string := String newline (String newline "").

(** The handler registered for each tool; the result is the text of
    the single content block. *)
Definition handler (inv : Invocation) : M string :=
  match inv with
  | CreateDocument dbName collectionName document =>
      failing "Failed to create document: "
        (db <- ensureConnection dbName ;;
         insertedId <-
           call (InsertOne (db_name db) collectionName document)
             (fun log => insertOne driver log (db_name db) collectionName document) ;;
         ret ("Document created successfully with ID: " ++ insertedId))
  | FindDocuments dbName collectionName filter limit =>
      let filter := default filter (TObj []) in
      failing "Failed to find documents: "
        (db <- ensureConnection dbName ;;
         let cursor_limit := if truthy limit then limit else None in
         documents <-
           call (FindToArray (db_name db) collectionName filter cursor_limit)
             (fun log =>
                findToArray driver log (db_name db) collectionName filter cursor_limit) ;;
         let formattedOutput := formatJsonOutput (TArr documents) in
         ret ("Found " ++ dec (List.length documents) ++ " document(s):"
                ++ two_newlines ++ formattedOutput))
  | UpdateDocument dbName collectionName filter update updateMany_ =>
      failing "Failed to update document(s): "
        (db <- ensureConnection dbName ;;
         result <-
           (if default updateMany_ false then
              call (UpdateMany (db_name db) collectionName filter update)
                (fun log => updateMany driver log (db_name db) collectionName filter update)
            else
              call (UpdateOne (db_name db) collectionName filter update)
                (fun log => updateOne driver log (db_name db) collectionName filter update)) ;;
         ret ("Update operation completed. Matched: " ++ dec (fst result)
                ++ ", Modified: " ++ dec (snd result)))
  | DeleteDocument dbName collectionName filter deleteMany_ =>
      failing "Failed to delete document(s): "
        (db <- ensureConnection dbName ;;
         deletedCount <-
           (if default deleteMany_ false then
              call (DeleteMany (db_name db) collectionName filter)
                (fun log => deleteMany driver log (db_name db) collectionName filter)
            else
              call (DeleteOne (db_name db) collectionName filter)
                (fun log => deleteOne driver log (db_name db) collectionName filter)) ;;
         ret ("Delete operation completed. Deleted " ++ dec deletedCount
                ++ " document(s)"))
  | Aggregate dbName collectionName pipeline =>
      failing "Failed to execute aggregation: "
        (db <- ensureConnection dbName ;;
         documents <-
           call (AggregateToArray (db_name db) collectionName pipeline)
             (fun log => aggregateToArray driver log (db_name db) collectionName pipeline) ;;
         let formattedOutput := formatJsonOutput (TArr documents) in
         ret ("Aggregation returned " ++ dec (List.length documents)
                ++ " document(s):" ++ two_newlines ++ formattedOutput))
  | CountDocumentsTool dbName collectionName filter =>
      let filter := default filter (TObj []) in
      failing "Failed to count documents: "
        (db <- ensureConnection dbName ;;
         count <-
           call (CountDocuments (db_name db) collectionName filter)
             (fun log => countDocuments driver log (db_name db) collectionName filter) ;;
         ret ("Found " ++ dec count ++ " document(s) matching the filter"))
  | ListCollectionsTool dbName =>
      failing "Failed to list collections: "
        (db <- ensureConnection dbName ;;
         collectionNames <-
           call (ListCollections (db_name db))
             (fun log => listCollections driver log (db_name db)) ;;
         ret ("Collections in database '" ++ dbName ++ "':" ++ String newline ""
                ++ concat (String newline "") collectionNames))
  end.

End Handlers.

End Registry.

Import Registry.

(** ** Notions used to state the properties, and sample values *)

Module Notions.

(** A property with its value bounded. *)
Definition bounded_entry (kv : string * TreeValue) : string * TreeValue :=
  (fst kv, truncateValue (snd kv)).

(** A property after the marker was assigned under a name the object
    already has: the property of that name holds [...], the others hold
    their bounded values. *)
Definition remarked_entry (marker : string) (kv : string * TreeValue)
    : string * TreeValue :=
  if String.eqb (fst kv) marker then (fst kv, TStr "...") else bounded_entry kv.

(** The length of the canonical serialization, as [truncateForOutput]
    measures it. *)
Definition size (v : TreeValue) : Z := Z.of_nat (length (JSON_stringify v)).

(** The same length in UTF-8 bytes: a code unit below 128 is one byte,
    the others of this model (below 256) are two. *)
Fixpoint utf8_length (s : string) : nat :=
  match s with
  | EmptyString => 0
  | String c s' => ((if (N_of_ascii c <? 128)%N then 1 else 2) + utf8_length s')%nat
  end.

Definition utf8_size (v : TreeValue) : Z := Z.of_nat (utf8_length (JSON_stringify v)).

(** No name occurs twice. *)
Fixpoint distinct (keys : list string) : bool :=
  match keys with
  | [] => true
  | k :: rest => negb (existsb (String.eqb k) rest) && distinct rest
  end.

(** The message prefix of each tool. *)
Definition failure_prefix (inv : Invocation) : string :=
  match inv with
  | CreateDocument _ _ _ => "Failed to create document: "
  | FindDocuments _ _ _ _ => "Failed to find documents: "
  | UpdateDocument _ _ _ _ _ => "Failed to update document(s): "
  | DeleteDocument _ _ _ _ => "Failed to delete document(s): "
  | Aggregate _ _ _ => "Failed to execute aggregation: "
  | CountDocumentsTool _ _ _ => "Failed to count documents: "
  | ListCollectionsTool _ => "Failed to list collections: "
  end.

(** [n] times the letter x. *)
Definition text_of (n : nat) : string := string_of_list_ascii (repeat "x"%char n).

(** The properties [k0], [k1], ... [k<n-1>], each with the value [v]. *)
Definition keyed (n : nat) (v : TreeValue) : list (string * TreeValue) :=
  map (fun i => ("k" ++ dec i, v)) (seq 0 n).

(** [v] inside [n] one-element arrays. *)
Fixpoint nest (n : nat) (v : TreeValue) : TreeValue :=
  match n with
  | O => v
  | S n' => TArr [nest n' v]
  end.

(** A driver over a collection of two documents: every operation
    succeeds, and a cursor with a limit returns that many documents. *)
Definition two_documents : list TreeValue :=
  [TObj [("name", TStr "Ada")]; TObj [("name", TStr "Grace")]].

Definition sample_driver : Driver :=
  {| newMongoClient := fun _ _ => None;
     connect := fun _ _ => None;
     clientDb := fun _ _ => None;
     insertOne := fun _ _ _ _ => Returned "65f0c0ffee";
     findToArray := fun _ _ _ _ limit =>
       match limit with
       | Some n => Returned (firstn (Z.to_nat n) two_documents)
       | None => Returned two_documents
       end;
     updateOne := fun _ _ _ _ _ => Returned (1, 1)%nat;
     updateMany := fun _ _ _ _ _ => Returned (2, 2)%nat;
     deleteOne := fun _ _ _ _ => Returned 1%nat;
     deleteMany := fun _ _ _ _ => Returned 2%nat;
     aggregateToArray := fun _ _ _ _ => Returned two_documents;
     countDocuments := fun _ _ _ _ => Returned 2%nat;
     listCollections := fun _ _ => Returned ["people"] |}.

Definition fresh_process (uri : option string) : State :=
  {| MONGODB_URI := uri; mongoClient := None; databases := []; calls := [] |}.

End Notions.

Import Notions.

(** ** Further notions: shapes of values, occurrences in text, runs of
       invocations *)

Module Coverage.

(** A value none of the three caps applies to, at any depth: texts of at
    most 200 units, arrays of at most one element, objects of at most 200
    (distinct) names, none of them [__proto__]. *)
Fixpoint within_caps (v : TreeValue) : bool :=
  match v with
  | TStr s => (length s <=? 200)%nat
  | TArr items => (List.length items <=? 1)%nat && forallb within_caps items
  | TObj props =>
      (List.length props <=? 200)%nat
      && distinct (map fst props)
      && negb (existsb (String.eqb "__proto__") (map fst props))
      && forallb (fun kv => let '(_, x) := kv in within_caps x) props
  | _ => true
  end.

(** A value whose arrays have at most two elements and whose objects have
    at most 201 names, at any depth. *)
Fixpoint capped_shape (v : TreeValue) : bool :=
  match v with
  | TArr items => (List.length items <=? 2)%nat && forallb capped_shape items
  | TObj props =>
      (List.length props <=? 201)%nat
      && forallb (fun kv => let '(_, x) := kv in capped_shape x) props
  | _ => true
  end.

(** [text.includes(p)]. *)
Fixpoint occurs (p text : string) : bool :=
  match strip_prefix p text with
  | Some _ => true
  | None =>
      match text with
      | EmptyString => false
      | String _ text' => occurs p text'
      end
  end.

(** The two replacement strings of [formatJsonOutput]. *)
Definition items_template : list Piece := [Text "..."; Group1; Text " more items"].

Definition properties_template : list Piece :=
  [Text "..."; Group1; Text " more properties"].

(** The database an invocation names. *)
Definition database_of (inv : Invocation) : string :=
  match inv with
  | CreateDocument dbName _ _ => dbName
  | FindDocuments dbName _ _ _ => dbName
  | UpdateDocument dbName _ _ _ _ => dbName
  | DeleteDocument dbName _ _ _ => dbName
  | Aggregate dbName _ _ => dbName
  | CountDocumentsTool dbName _ _ => dbName
  | ListCollectionsTool dbName => dbName
  end.

(** The one driver operation of an invocation, on the database handle of
    name [db]. *)
Definition operation_of (inv : Invocation) (db : string) : DriverCall :=
  match inv with
  | CreateDocument _ coll document => InsertOne db coll document
  | FindDocuments _ coll filter limit =>
      FindToArray db coll (default filter (TObj []))
        (if truthy limit then limit else None)
  | UpdateDocument _ coll filter update many =>
      if default many false then UpdateMany db coll filter update
      else UpdateOne db coll filter update
  | DeleteDocument _ coll filter many =>
      if default many false then DeleteMany db coll filter
      else DeleteOne db coll filter
  | Aggregate _ coll pipeline => AggregateToArray db coll pipeline
  | CountDocumentsTool _ coll filter => CountDocuments db coll (default filter (TObj []))
  | ListCollectionsTool _ => ListCollections db
  end.

(** What the one operation of an invocation throws, if it throws, on the
    handle of name [db] after the calls [log]. *)
Definition thrown_by {A} (answer : Outcome A) : option Thrown :=
  match answer with
  | Returned _ => None
  | Threw e => Some e
  end.

Definition operation_failure (driver : Driver) (inv : Invocation) (db : string)
    (log : list DriverCall) : option Thrown :=
  match inv with
  | CreateDocument _ coll document => thrown_by (insertOne driver log db coll document)
  | FindDocuments _ coll filter limit =>
      thrown_by (findToArray driver log db coll (default filter (TObj []))
                   (if truthy limit then limit else None))
  | UpdateDocument _ coll filter update many =>
      if default many false then thrown_by (updateMany driver log db coll filter update)
      else thrown_by (updateOne driver log db coll filter update)
  | DeleteDocument _ coll filter many =>
      if default many false then thrown_by (deleteMany driver log db coll filter)
      else thrown_by (deleteOne driver log db coll filter)
  | Aggregate _ coll pipeline => thrown_by (aggregateToArray driver log db coll pipeline)
  | CountDocumentsTool _ coll filter =>
      thrown_by (countDocuments driver log db coll (default filter (TObj [])))
  | ListCollectionsTool _ => thrown_by (listCollections driver log db)
  end.

(** [cause] is what was thrown inside the [try] block of the handler:
    by [ensureConnection], or by the operation after
    [ensureConnection] had returned. *)
Definition thrown_in (driver : Driver) (inv : Invocation) (st : State)
    (cause : Thrown) : Prop :=
  (exists st1, ensureConnection driver (database_of inv) st = (Threw cause, st1))
  \/ (exists db st1,
        ensureConnection driver (database_of inv) st = (Returned db, st1)
        /\ operation_failure driver inv (db_name db) (calls st1) = Some cause).

(** A call that constructs or connects the client. *)
Definition connects (c : DriverCall) : bool :=
  match c with
  | NewMongoClient _ => true
  | Connect => true
  | _ => false
  end.

(** The process after a run of invocations, one after the other. *)
Fixpoint run (driver : Driver) (invs : list Invocation) (st : State) : State :=
  match invs with
  | [] => st
  | inv :: rest => run driver rest (snd (handler driver inv st))
  end.

(** Every cached handle is the handle of the name it is cached under. *)
Definition cache_consistent (m : list (string * Db)) : Prop :=
  forall k d, map_get m k = Some d -> db_name d = k.

(** A driver whose [connect] fails. *)
Definition unreachable_driver : Driver :=
  {| newMongoClient := fun _ _ => None;
     connect := fun _ _ => Some (ErrorObj "connect ECONNREFUSED 127.0.0.1:27017");
     clientDb := clientDb sample_driver;
     insertOne := insertOne sample_driver;
     findToArray := findToArray sample_driver;
     updateOne := updateOne sample_driver;
     updateMany := updateMany sample_driver;
     deleteOne := deleteOne sample_driver;
     deleteMany := deleteMany sample_driver;
     aggregateToArray := aggregateToArray sample_driver;
     countDocuments := countDocuments sample_driver;
     listCollections := listCollections sample_driver |}.

(** A driver whose [countDocuments] throws a value that is no [Error]. *)
Definition throwing_driver : Driver :=
  {| newMongoClient := newMongoClient sample_driver;
     connect := connect sample_driver;
     clientDb := clientDb sample_driver;
     insertOne := insertOne sample_driver;
     findToArray := findToArray sample_driver;
     updateOne := updateOne sample_driver;
     updateMany := updateMany sample_driver;
     deleteOne := deleteOne sample_driver;
     deleteMany := deleteMany sample_driver;
     aggregateToArray := aggregateToArray sample_driver;
     countDocuments := fun _ _ _ _ => Threw NonError;
     listCollections := listCollections sample_driver |}.

(** A driver whose [client.db] rejects names with a dot. *)
Definition strict_driver : Driver :=
  {| newMongoClient := newMongoClient sample_driver;
     connect := connect sample_driver;
     clientDb := fun _ name =>
       if occurs "." name
       then Some (ErrorObj "database names cannot contain the character '.'")
       else None;
     insertOne := insertOne sample_driver;
     findToArray := findToArray sample_driver;
     updateOne := updateOne sample_driver;
     updateMany := updateMany sample_driver;
     deleteOne := deleteOne sample_driver;
     deleteMany := deleteMany sample_driver;
     aggregateToArray := aggregateToArray sample_driver;
     countDocuments := countDocuments sample_driver;
     listCollections := listCollections sample_driver |}.

End Coverage.

Import Coverage.

(** * Properties *)

(** ** Strings, lists and decimal numerals *)

Lemma length_append (a b : string) : length (a ++ b) = (length a + length b)%nat.
Proof.
  induction a as [|c a IH]; simpl; [reflexivity | now rewrite IH].
Qed.

Lemma append_assoc (a b c : string) : (a ++ b) ++ c = a ++ (b ++ c).
Proof.
  induction a as [|x a IH]; simpl; [reflexivity | now rewrite IH].
Qed.

(** [slice(0, n)] of a string with at least [n] units is its prefix of
    length [n]. *)
Lemma slice_prefix (n : nat) : forall s,
  (n <= length s)%nat ->
  exists tail,
    s = substring 0 n s ++ tail
    /\ length (substring 0 n s) = n
    /\ length tail = (length s - n)%nat.
Proof.
  induction n as [|n IH]; intros s Hn.
  - exists s. destruct s; simpl; repeat split; lia.
  - destruct s as [|c s]; simpl in Hn; [lia|].
    destruct (IH s) as (tail & Hs & Hl & Ht); [lia|].
    exists tail. simpl. repeat split.
    + now rewrite <- Hs.
    + now rewrite Hl.
    + exact Ht.
Qed.

(** ** The bounding engine, node by node *)

Lemma truncateValue_str (s : string) :
  truncateValue (TStr s) =
  if (200 <? length s)%nat
  then TStr (string_marker (substring 0 200 s) (length s - 200))
  else TStr s.
Proof. reflexivity. Qed.

Lemma truncateValue_arr (items : list TreeValue) :
  truncateValue (TArr items) =
  if (List.length items <=? 1)%nat then TArr (map truncateValue items)
  else match items with
       | first :: _ =>
           TArr [truncateValue first; TStr (items_marker (List.length items - 1))]
       | [] => TArr []
       end.
Proof. reflexivity. Qed.

Lemma truncateValue_obj (props : list (string * TreeValue)) :
  truncateValue (TObj props) =
  if (List.length props <=? 200)%nat
  then TObj (assign_each truncateValue props [])
  else TObj (assign (properties_marker (List.length props - 200)) (TStr "...")
               (assign_first truncateValue 200 props [])).
Proof. reflexivity. Qed.

(** An over-budget value is rewritten by [truncateValue]. *)
Lemma over_budget_rewrites (v : TreeValue) (budget : Z) :
  (budget < size v)%Z ->
  truncateForOutput v budget = truncateValue v.
Proof.
  intros H. unfold truncateForOutput. fold (size v).
  destruct (Z.leb_spec (size v) budget); [lia | reflexivity].
Qed.

Lemma length_le_utf8 (s : string) : (length s <= utf8_length s)%nat.
Proof.
  induction s as [|c s IH]; simpl; [lia|].
  destruct (N_of_ascii c <? 128)%N; lia.
Qed.

(** C1. Pass-through: a value whose serialization is not longer than the
    budget, counted in code units as the code counts it or in bytes, is
    returned as it is, and no call of [truncateValue] is needed for that
    (the result is there with no nested call allowed). *)
Theorem pass_through_identity (v : TreeValue) (budget : Z) :
  (size v <= budget)%Z \/ (utf8_size v <= budget)%Z ->
  truncateForOutput v budget = v
  /\ truncateForOutput_fuel 0 v budget = Some v.
Proof.
  intros H.
  assert (size v <= budget)%Z as Hle.
  { destruct H as [H|H]; [exact H|].
    unfold size, utf8_size in *.
    pose proof (length_le_utf8 (JSON_stringify v)). lia. }
  unfold truncateForOutput, truncateForOutput_fuel. fold (size v).
  destruct (Z.leb_spec (size v) budget); [|lia].
  split; reflexivity.
Qed.

Lemma pass_through_identity_witness :
  let v := TArr [TObj [("name", TStr "Ada"); ("age", TNum 36)]] in
  truncateForOutput v default_maxOutputLength = v
  /\ truncateForOutput_fuel 0 v default_maxOutputLength = Some v.
Proof.
  apply pass_through_identity. left. vm_compute. discriminate.
Defined.

(** C2. Array cap: in the rewrite of an over-budget value, an array of
    [N >= 2] elements becomes the bounded first element followed by the
    marker [...<N-1> more items]; an array of 0 or 1 elements keeps its
    length, its elements bounded, with no marker. *)
Theorem array_cap (items : list TreeValue) :
  (forall budget,
      (budget < size (TArr items))%Z ->
      truncateForOutput (TArr items) budget = truncateValue (TArr items))
  /\ ((2 <= List.length items)%nat ->
      exists first rest,
        items = first :: rest
        /\ truncateValue (TArr items) =
           TArr [truncateValue first;
                 TStr ("..." ++ dec (List.length items - 1) ++ " more items")])
  /\ ((List.length items <= 1)%nat ->
      truncateValue (TArr items) = TArr (map truncateValue items)
      /\ List.length (map truncateValue items) = List.length items).
Proof.
  split; [intros budget; apply over_budget_rewrites|].
  rewrite truncateValue_arr. split; intros H.
  - destruct (Nat.leb_spec (List.length items) 1); [lia|].
    destruct items as [|first rest]; [simpl in H; lia|].
    exists first, rest. split; reflexivity.
  - destruct (Nat.leb_spec (List.length items) 1); [|lia].
    split; [reflexivity | apply length_map].
Qed.

Lemma array_cap_witness :
  truncateValue (TArr [TStr "a"; TStr "b"; TStr "c"]) =
    TArr [TStr "a"; TStr "...2 more items"]
  /\ truncateValue (TArr [TArr [TNum 1; TNum 2]]) =
    TArr [TArr [TNum 1; TStr "...1 more items"]].
Proof.
  split.
  - destruct (array_cap [TStr "a"; TStr "b"; TStr "c"]) as (_ & H & _).
    destruct H as (first & rest & Hi & Ht); [simpl; lia|].
    injection Hi as <- <-. exact Ht.
  - destruct (array_cap [TArr [TNum 1; TNum 2]]) as (_ & _ & H).
    destruct H as (Ht & _); [simpl; lia|]. exact Ht.
Defined.

(** C4. String cap: a text of [L > 200] units becomes its first 200 units
    followed by [...<L-200> more characters]; shorter texts, numbers,
    booleans and null are returned as they are. *)
Theorem string_cap :
  (forall s, (200 < length s)%nat ->
     exists tail,
       s = substring 0 200 s ++ tail
       /\ length (substring 0 200 s) = 200%nat
       /\ length tail = (length s - 200)%nat
       /\ truncateValue (TStr s) =
          TStr (substring 0 200 s ++ "..." ++ dec (length s - 200) ++ " more characters"))
  /\ (forall s, (length s <= 200)%nat -> truncateValue (TStr s) = TStr s)
  /\ (forall n, truncateValue (TNum n) = TNum n)
  /\ (forall b, truncateValue (TBool b) = TBool b)
  /\ truncateValue TNull = TNull.
Proof.
  split; [|split; [|repeat split]].
  - intros s H.
    destruct (slice_prefix 200 s) as (tail & Hs & Hl & Ht); [lia|].
    exists tail. repeat split; try assumption.
    rewrite truncateValue_str.
    destruct (Nat.ltb_spec 200 (length s)); [reflexivity | lia].
  - intros s H. rewrite truncateValue_str.
    destruct (Nat.ltb_spec 200 (length s)); [lia | reflexivity].
Qed.

Lemma string_cap_witness :
  truncateValue (TStr (text_of (50 * 100))) =
  TStr (text_of 200 ++ "...4800 more characters").
Proof.
  destruct string_cap as (H & _).
  destruct (H (text_of (50 * 100))) as (tail & _ & _ & _ & Ht).
  - apply Nat.ltb_lt. vm_compute. reflexivity.
  - rewrite Ht. vm_compute. reflexivity.
Defined.

(** ** Objects *)

Lemma distinct_NoDup (keys : list string) : distinct keys = true -> NoDup keys.
Proof.
  induction keys as [|k rest IH]; simpl; intros H; [constructor|].
  apply andb_true_iff in H. destruct H as [Hk Hr].
  constructor; [|auto].
  intros Hin. apply negb_true_iff in Hk.
  assert (existsb (String.eqb k) rest = true) as E.
  { apply existsb_exists. exists k. split; [exact Hin | apply String.eqb_refl]. }
  congruence.
Qed.

Lemma map_fixed {A} (f : A -> A) (l : list A) :
  Forall (fun x => f x = x) l -> map f l = l.
Proof.
  induction 1 as [|x l Hx _ IH]; simpl; [reflexivity | now rewrite Hx, IH].
Qed.

(** Storing a name the object does not have yet adds it last. *)
Lemma store_fresh (key : string) (v : TreeValue) (result : list (string * TreeValue)) :
  ~ In key (map fst result) -> store key v result = (result ++ [(key, v)])%list.
Proof.
  induction result as [|[k x] rest IH]; simpl; intros H; [reflexivity|].
  destruct (String.eqb_spec k key) as [->|Hne]; [tauto|].
  rewrite IH; [reflexivity | tauto].
Qed.

(** Storing a name the object has replaces the value there. *)
Lemma store_present (key : string) (v : TreeValue) (result : list (string * TreeValue)) :
  NoDup (map fst result) ->
  store key v result
  = map (fun kv => if String.eqb (fst kv) key then (fst kv, v) else kv) result
    \/ ~ In key (map fst result).
Proof.
  induction result as [|[k x] rest IH]; simpl; intros Hnd; [right; tauto|].
  inversion Hnd as [|? ? Hk Hrest]; subst.
  destruct (String.eqb_spec k key) as [->|Hne].
  - left. f_equal. symmetry. apply map_fixed.
    apply Forall_forall. intros [k' x'] Hin. simpl.
    destruct (String.eqb_spec k' key) as [->|]; [|reflexivity].
    exfalso. apply Hk. apply in_map_iff. now exists (key, x').
  - destruct (IH Hrest) as [-> | Hnot]; [left; reflexivity | right].
    intros [?|?]; [congruence | contradiction].
Qed.

Lemma assign_plain (key : string) (v : TreeValue) (result : list (string * TreeValue)) :
  key <> "__proto__" -> assign key v result = store key v result.
Proof.
  intros H. unfold assign. destruct (String.eqb_spec key "__proto__"); [contradiction|].
  reflexivity.
Qed.

(** Assigning a name the object does not have yet adds it last. *)
Lemma assign_fresh (key : string) (v : TreeValue) (result : list (string * TreeValue)) :
  key <> "__proto__" ->
  ~ In key (map fst result) -> assign key v result = (result ++ [(key, v)])%list.
Proof.
  intros Hk H. rewrite assign_plain by exact Hk. now apply store_fresh.
Qed.

(** Assigning under the name [__proto__] stores nothing. *)
Lemma assign_proto (v : TreeValue) (result : list (string * TreeValue)) :
  assign "__proto__" v result = result.
Proof. reflexivity. Qed.

Lemma assign_each_distinct (f : TreeValue -> TreeValue) :
  forall props result,
    NoDup (map fst result ++ map fst props) ->
    ~ In "__proto__" (map fst props) ->
    assign_each f props result =
    (result ++ map (fun kv => (fst kv, f (snd kv))) props)%list.
Proof.
  induction props as [|[k x] rest IH]; intros result H Hp; simpl.
  - now rewrite app_nil_r.
  - simpl in Hp. rewrite assign_fresh.
    + rewrite IH.
      * now rewrite <- app_assoc.
      * rewrite map_app. simpl. rewrite <- app_assoc. exact H.
      * tauto.
    + intros ->. tauto.
    + apply NoDup_remove_2 in H. intros Hin. apply H. apply in_or_app. now left.
Qed.

Lemma assign_first_firstn (f : TreeValue -> TreeValue) :
  forall n props result,
    assign_first f n props result = assign_each f (firstn n props) result.
Proof.
  induction n as [|n IH]; intros [|[k x] rest] result; simpl; try reflexivity.
  apply IH.
Qed.

Lemma NoDup_firstn {A} (n : nat) (l : list A) : NoDup l -> NoDup (firstn n l).
Proof.
  intros H. rewrite <- (firstn_skipn n l) in H.
  now apply NoDup_app_remove_r in H.
Qed.

Lemma properties_marker_plain (remaining : nat) :
  properties_marker remaining <> "__proto__".
Proof.
  unfold properties_marker. simpl. discriminate.
Qed.

(** C3, as the code has it. Object cap, for an object whose names kept
    are all stored (none is [__proto__]): with at most 200 names it
    keeps all of them, in order, each value bounded; with [K > 200]
    names it keeps its first 200, each value bounded, and gains the name
    [...<K-200> more properties] last, with the value [...]; when one of
    these 200 is itself that name, no name is gained, and the property
    of that name holds [...] in place of its bounded value. *)
Theorem object_cap (props : list (string * TreeValue)) :
  NoDup (map fst props) ->
  (forall budget,
      (budget < size (TObj props))%Z ->
      truncateForOutput (TObj props) budget = truncateValue (TObj props))
  /\ ((List.length props <= 200)%nat ->
      ~ In "__proto__" (map fst props) ->
      truncateValue (TObj props) = TObj (map bounded_entry props))
  /\ ((200 < List.length props)%nat ->
      ~ In "__proto__" (map fst (firstn 200 props)) ->
      let marker := "..." ++ dec (List.length props - 200) ++ " more properties" in
      (~ In marker (map fst (firstn 200 props)) ->
       truncateValue (TObj props) =
       TObj (map bounded_entry (firstn 200 props) ++ [(marker, TStr "...")]))
      /\ (In marker (map fst (firstn 200 props)) ->
          truncateValue (TObj props) =
          TObj (map (remarked_entry marker) (firstn 200 props)))).
Proof.
  intros Hnd. split; [intros budget; apply over_budget_rewrites|].
  rewrite truncateValue_obj. split; intros H Hproto.
  - destruct (Nat.leb_spec (List.length props) 200); [|lia].
    rewrite assign_each_distinct; [reflexivity | exact Hnd | exact Hproto].
  - intros marker.
    assert (NoDup (map fst (firstn 200 props))) as Hnd200
      by (rewrite <- firstn_map; now apply NoDup_firstn).
    assert (map fst (map bounded_entry (firstn 200 props))
            = map fst (firstn 200 props)) as Hkeys
      by (rewrite map_map; reflexivity).
    destruct (Nat.leb_spec (List.length props) 200); [lia|].
    rewrite assign_first_firstn, assign_each_distinct;
      [|exact Hnd200 | exact Hproto].
    rewrite app_nil_l.
    change (fun kv : string * TreeValue => (fst kv, truncateValue (snd kv)))
      with bounded_entry.
    change (properties_marker (List.length props - 200)) with marker.
    rewrite assign_plain by apply properties_marker_plain.
    split; intros Hm.
    + rewrite store_fresh; [reflexivity|]. now rewrite Hkeys.
    + destruct (store_present marker (TStr "...")
                  (map bounded_entry (firstn 200 props))) as [-> | Hnot].
      * now rewrite Hkeys.
      * rewrite map_map. reflexivity.
      * rewrite Hkeys in Hnot. contradiction.
Qed.

Lemma keyed_has_no (name : string) (n : nat) (v : TreeValue) :
  existsb (String.eqb name) (map fst (keyed n v)) = false ->
  ~ In name (map fst (keyed n v)).
Proof.
  intros E Hin.
  assert (existsb (String.eqb name) (map fst (keyed n v)) = true) as E'.
  { apply existsb_exists. exists name. split; [exact Hin | apply String.eqb_refl]. }
  congruence.
Qed.

Lemma object_cap_witness :
  truncateValue (TObj (keyed 201 (TArr [TNull; TNull]))) =
  TObj (keyed 200 (TArr [TNull; TStr "...1 more items"])
          ++ [("...1 more properties", TStr "...")])
  /\ truncateValue (TObj (keyed 2 (TArr [TNull; TNull]))) =
     TObj (keyed 2 (TArr [TNull; TStr "...1 more items"])).
Proof.
  split.
  - destruct (object_cap (keyed 201 (TArr [TNull; TNull]))) as (_ & _ & H).
    + apply distinct_NoDup. vm_compute. reflexivity.
    + destruct H as [H _].
      * apply Nat.ltb_lt. vm_compute. reflexivity.
      * change (firstn 200 (keyed 201 (TArr [TNull; TNull])))
          with (keyed 200 (TArr [TNull; TNull])).
        apply keyed_has_no. vm_compute. reflexivity.
      * rewrite H.
        -- vm_compute. reflexivity.
        -- change (firstn 200 (keyed 201 (TArr [TNull; TNull])))
             with (keyed 200 (TArr [TNull; TNull])).
           apply keyed_has_no. vm_compute. reflexivity.
  - destruct (object_cap (keyed 2 (TArr [TNull; TNull]))) as (_ & H & _).
    + apply distinct_NoDup. vm_compute. reflexivity.
    + rewrite H; [vm_compute; reflexivity | simpl; lia |].
      apply keyed_has_no. vm_compute. reflexivity.
Defined.

(** C3, as the specification words it, fails, in two ways.  An
    over-budget object of 201 distinct names whose first name is
    [...1 more properties] comes out with 200 names, not 201: no name is
    gained, and the value of that first name is not its bounded value
    but [...].  And an over-budget object of 200 distinct names whose
    first name is [__proto__] comes out with 199 names: the assignment
    to that name stores no property. *)
Lemma object_cap_counterexample :
  (let props := ("...1 more properties", TNum 7) :: keyed 200 (TStr (text_of 150)) in
   NoDup (map fst props)
   /\ (200 < List.length props)%nat
   /\ (default_maxOutputLength < size (TObj props))%Z
   /\ truncateForOutput (TObj props) default_maxOutputLength <>
      TObj (map bounded_entry (firstn 200 props)
              ++ [(properties_marker (List.length props - 200), TStr "...")])
   /\ truncateForOutput (TObj props) default_maxOutputLength =
      TObj (("...1 more properties", TStr "...") :: keyed 199 (TStr (text_of 150))))
  /\ (let props := ("__proto__", TNum 7) :: keyed 199 (TStr (text_of 150)) in
      NoDup (map fst props)
      /\ (List.length props <= 200)%nat
      /\ (default_maxOutputLength < size (TObj props))%Z
      /\ truncateForOutput (TObj props) default_maxOutputLength <>
         TObj (map bounded_entry props)
      /\ truncateForOutput (TObj props) default_maxOutputLength =
         TObj (keyed 199 (TStr (text_of 150)))).
Proof.
  split; intros props; (split; [|split; [|split; [|split]]]).
  - apply distinct_NoDup. vm_compute. reflexivity.
  - apply Nat.ltb_lt. vm_compute. reflexivity.
  - apply Z.ltb_lt. vm_compute. reflexivity.
  - intros H.
    apply (f_equal (fun v => match v with
                             | TObj p => List.length p
                             | _ => 0%nat
                             end)) in H.
    vm_compute in H. discriminate.
  - vm_compute. reflexivity.
  - apply distinct_NoDup. vm_compute. reflexivity.
  - apply Nat.leb_le. vm_compute. reflexivity.
  - apply Z.ltb_lt. vm_compute. reflexivity.
  - intros H.
    apply (f_equal (fun v => match v with
                             | TObj p => List.length p
                             | _ => 0%nat
                             end)) in H.
    vm_compute in H. discriminate.
  - vm_compute. reflexivity.
Qed.

(** ** Termination: the walk with bounded nesting *)

Lemma Forall_firstn {A} (P : A -> Prop) (n : nat) (l : list A) :
  Forall P l -> Forall P (firstn n l).
Proof.
  intros H. rewrite <- (firstn_skipn n l) in H.
  apply Forall_app in H. tauto.
Qed.

Lemma depth_item (items : list TreeValue) :
  Forall (fun x => (depth x < depth (TArr items))%nat) items.
Proof.
  simpl. induction items as [|x rest IH]; constructor; simpl.
  - lia.
  - eapply Forall_impl; [|exact IH]. simpl. intros a Ha. lia.
Qed.

Lemma depth_property (props : list (string * TreeValue)) :
  Forall (fun kv => (depth (snd kv) < depth (TObj props))%nat) props.
Proof.
  simpl. induction props as [|[k x] rest IH]; constructor; simpl.
  - lia.
  - eapply Forall_impl; [|exact IH]. simpl. intros a Ha. lia.
Qed.

Lemma map_fuel_total (f : TreeValue -> option TreeValue) (g : TreeValue -> TreeValue)
    (items : list TreeValue) :
  Forall (fun x => f x = Some (g x)) items ->
  map_fuel f items = Some (map g items).
Proof.
  induction 1 as [|x rest Hx _ IH]; simpl; [reflexivity|].
  now rewrite Hx, IH.
Qed.

Lemma assign_fuel_total (f : TreeValue -> option TreeValue) (g : TreeValue -> TreeValue)
    (props : list (string * TreeValue)) :
  Forall (fun kv => f (snd kv) = Some (g (snd kv))) props ->
  forall result, assign_fuel f props result = Some (assign_each g props result).
Proof.
  induction 1 as [|[k x] rest Hx _ IH]; intros result; simpl; [reflexivity|].
  simpl in Hx. rewrite Hx. apply IH.
Qed.

Lemma truncateValue_fuel_arr (fuel : nat) (items : list TreeValue) :
  truncateValue_fuel (S fuel) (TArr items) =
  if (List.length items <=? 1)%nat
  then option_map TArr (map_fuel (truncateValue_fuel fuel) items)
  else match items with
       | first :: _ =>
           match truncateValue_fuel fuel first with
           | Some firstItem =>
               Some (TArr [firstItem; TStr (items_marker (List.length items - 1))])
           | None => None
           end
       | [] => Some (TArr [])
       end.
Proof. reflexivity. Qed.

Lemma truncateValue_fuel_obj (fuel : nat) (props : list (string * TreeValue)) :
  truncateValue_fuel (S fuel) (TObj props) =
  if (List.length props <=? 200)%nat
  then option_map TObj (assign_fuel (truncateValue_fuel fuel) props [])
  else match assign_fuel (truncateValue_fuel fuel) (firstn 200 props) [] with
       | Some result =>
           Some (TObj (assign (properties_marker (List.length props - 200))
                         (TStr "...") result))
       | None => None
       end.
Proof. reflexivity. Qed.

(** With more nested calls allowed than the value is deep, the walk
    returns, and returns what [truncateValue] computes. *)
Lemma truncateValue_fuel_enough (v : TreeValue) :
  forall fuel, (depth v < fuel)%nat ->
  truncateValue_fuel fuel v = Some (truncateValue v).
Proof.
  induction v as [| b | n | s | items IH | props IH] using TreeValue_nested_ind;
    intros [|fuel] Hd; try lia; try reflexivity.
  - rewrite truncateValue_str. simpl truncateValue_fuel.
    destruct (200 <? length s)%nat; reflexivity.
  - assert (Forall (fun x => truncateValue_fuel fuel x = Some (truncateValue x)) items)
      as Hall.
    { pose proof (depth_item items) as Hdi.
      rewrite Forall_forall in *. intros x Hx. apply IH; [exact Hx|].
      specialize (Hdi x Hx). lia. }
    rewrite truncateValue_fuel_arr, truncateValue_arr.
    destruct (List.length items <=? 1)%nat.
    + now rewrite (map_fuel_total _ truncateValue).
    + destruct items as [|first rest]; [reflexivity|].
      apply Forall_inv in Hall. now rewrite Hall.
  - assert (Forall (fun kv => truncateValue_fuel fuel (snd kv)
                              = Some (truncateValue (snd kv))) props) as Hall.
    { pose proof (depth_property props) as Hdp.
      rewrite Forall_forall in *. intros kv Hkv. apply IH; [exact Hkv|].
      specialize (Hdp kv Hkv). lia. }
    rewrite truncateValue_fuel_obj, truncateValue_obj.
    destruct (List.length props <=? 200)%nat.
    + now rewrite (assign_fuel_total _ truncateValue).
    + rewrite (assign_fuel_total _ truncateValue); [|now apply Forall_firstn].
      now rewrite assign_first_firstn.
Qed.

(** C7. Totality: for every value and every budget the bounding returns
    a value; a walk that may nest one call more than the value is deep
    (or any number more) reaches no limit and returns the result of
    [truncateForOutput]. *)
Theorem bounding_total (v : TreeValue) (budget : Z) (extra : nat) :
  truncateForOutput_fuel (S (depth v) + extra) v budget
  = Some (truncateForOutput v budget).
Proof.
  unfold truncateForOutput_fuel, truncateForOutput.
  destruct (Z.of_nat (length (JSON_stringify v)) <=? budget)%Z; [reflexivity|].
  apply truncateValue_fuel_enough. lia.
Qed.

(** ** Best effort: values the single pass leaves over the budget *)

Lemma append_empty (s : string) : s ++ "" = s.
Proof.
  induction s as [|c s IH]; simpl; [reflexivity | now rewrite IH].
Qed.

Lemma serialize_singleton (indent : string) (x : TreeValue) :
  serialize "" indent (TArr [x]) = "[" ++ serialize "" indent x ++ "]".
Proof.
  simpl. now rewrite append_empty.
Qed.

Lemma length_serialize_nest (n : nat) (x : TreeValue) (indent : string) :
  length (serialize "" indent (nest n x))
  = (2 * n + length (serialize "" indent x))%nat.
Proof.
  induction n as [|n IH]; [reflexivity|].
  change (nest (S n) x) with (TArr [nest n x]).
  rewrite serialize_singleton. simpl length.
  rewrite length_append, IH. simpl. lia.
Qed.

Lemma size_nest (n : nat) (x : TreeValue) :
  size (nest n x) = (2 * Z.of_nat n + size x)%Z.
Proof.
  unfold size, JSON_stringify. rewrite length_serialize_nest. lia.
Qed.

(** One-element arrays are walked through, whatever their number. *)
Lemma truncateValue_nest (n : nat) (x : TreeValue) :
  truncateValue (nest n x) = nest n (truncateValue x).
Proof.
  induction n as [|n IH]; [reflexivity|].
  change (nest (S n) x) with (TArr [nest n x]).
  rewrite truncateValue_arr. simpl. now rewrite IH.
Qed.

(** C5. Best effort, not a ceiling: whatever the budget, some value over
    the budget is still over the budget after bounding; and at the
    default budget the object of 200 names each holding a text of 199
    units is such a value (bounding leaves it as it is). *)
Theorem bounding_is_best_effort :
  (forall budget, exists v,
      (budget < size v)%Z /\ (budget < size (truncateForOutput v budget))%Z)
  /\ (let v := TObj (keyed 200 (TStr (text_of 199))) in
      (default_maxOutputLength < size v)%Z
      /\ (default_maxOutputLength < size (truncateForOutput v default_maxOutputLength))%Z).
Proof.
  split.
  - intros budget. exists (nest (Z.to_nat budget) (TArr [])).
    assert (budget < size (nest (Z.to_nat budget) (TArr [])))%Z as Hover.
    { rewrite size_nest. change (size (TArr [])) with 2%Z. lia. }
    split; [exact Hover|].
    rewrite over_budget_rewrites by exact Hover.
    rewrite truncateValue_nest. exact Hover.
  - split; apply Z.ltb_lt; vm_compute; reflexivity.
Qed.

(** C10. Bounding can lengthen the serialization: whatever the budget,
    some value over the budget has a bounded form with a strictly longer
    serialization; at the default budget the object of 200 names each
    holding a text of 201 units is such a value, since the marker
    [...1 more characters] is longer than the one unit it stands for. *)
Theorem bounding_not_size_monotone :
  (forall budget, exists v,
      (budget < size v)%Z /\ (size v < size (truncateForOutput v budget))%Z)
  /\ (let v := TObj (keyed 200 (TStr (text_of 201))) in
      (default_maxOutputLength < size v)%Z
      /\ (size v < size (truncateForOutput v default_maxOutputLength))%Z).
Proof.
  split.
  - intros budget. exists (nest (Z.to_nat budget) (TStr (text_of 201))).
    assert (size (TStr (text_of 201)) = 203%Z) as Hbefore
      by (vm_compute; reflexivity).
    assert (size (truncateValue (TStr (text_of 201))) = 222%Z) as Hafter
      by (vm_compute; reflexivity).
    assert (budget < size (nest (Z.to_nat budget) (TStr (text_of 201))))%Z as Hover.
    { rewrite size_nest, Hbefore. lia. }
    split; [exact Hover|].
    rewrite over_budget_rewrites by exact Hover.
    rewrite truncateValue_nest, !size_nest, Hbefore, Hafter. lia.
  - split; apply Z.ltb_lt; vm_compute; reflexivity.
Qed.

(** ** The connection registry *)

Lemma map_get_set (m : list (string * Db)) (k : string) (d : Db) :
  map_get (map_set m k d) k = Some d.
Proof.
  induction m as [|[k' d'] m IH]; simpl.
  - now rewrite String.eqb_refl.
  - destruct (String.eqb_spec k' k) as [->|Hne]; simpl.
    + now rewrite String.eqb_refl.
    + destruct (String.eqb_spec k' k); [contradiction | exact IH].
Qed.

(** Without a client and without the variable, [ensureConnection] throws
    from [getMongoUri] and the process is as it was. *)
Lemma ensureConnection_unconfigured (driver : Driver) (dbName : string) (st : State) :
  MONGODB_URI st = None ->
  mongoClient st = None ->
  ensureConnection driver dbName st
  = (Threw (ErrorObj "MONGODB_URI environment variable is not set"), st).
Proof.
  intros Huri Hclient.
  unfold ensureConnection, bind, get_state, getMongoUri, throw.
  rewrite Hclient. unfold bind, get_state. rewrite Huri. reflexivity.
Qed.

(** The empty string is no connection URI either. *)
Lemma ensureConnection_empty_uri (driver : Driver) (dbName : string) (st : State) :
  MONGODB_URI st = Some "" ->
  mongoClient st = None ->
  ensureConnection driver dbName st
  = (Threw (ErrorObj "MONGODB_URI environment variable is not set"), st).
Proof.
  intros Huri Hclient.
  unfold ensureConnection, bind, get_state, getMongoUri, throw.
  rewrite Hclient. unfold bind, get_state. rewrite Huri. reflexivity.
Qed.

(** C8. Configuration error, fail fast: when the connection URI variable
    is absent and no client exists yet, every tool invocation fails with
    the configuration error (under the tool's prefix) and leaves the
    process as it was: no client, the same handle cache, and no call of
    the driver, the client constructor included. *)
Theorem configuration_error_fail_fast (driver : Driver) (inv : Invocation) (st : State) :
  MONGODB_URI st = None ->
  mongoClient st = None ->
  handler driver inv st
  = (Threw (ErrorObj (failure_prefix inv
                        ++ "MONGODB_URI environment variable is not set")), st).
Proof.
  intros Huri Hclient.
  destruct inv; unfold handler, failing, try_catch, bind;
    rewrite (ensureConnection_unconfigured _ _ _ Huri Hclient); reflexivity.
Qed.

Lemma configuration_error_fail_fast_witness :
  handler sample_driver (FindDocuments "shop" "orders" None (Some 3%Z))
    (fresh_process None)
  = (Threw (ErrorObj
              "Failed to find documents: MONGODB_URI environment variable is not set"),
     {| MONGODB_URI := None; mongoClient := None; databases := []; calls := [] |}).
Proof.
  apply (configuration_error_fail_fast sample_driver
           (FindDocuments "shop" "orders" None (Some 3%Z)) (fresh_process None));
    reflexivity.
Defined.

(** ** The find-documents tool *)

(** C9. A limit of 0 is not applied: the invocation runs exactly as the
    one with no limit; the cursor is run without a cap, and every
    document the uncapped query returns is counted in the prefix and
    formatted. *)
Theorem find_limit_zero_applies_no_cap
    (driver : Driver) (dbName collectionName : string)
    (filter : option TreeValue) (st : State) :
  handler driver (FindDocuments dbName collectionName filter (Some 0%Z)) st
  = handler driver (FindDocuments dbName collectionName filter None) st
  /\ forall db st' documents,
       ensureConnection driver dbName st = (Returned db, st') ->
       findToArray driver (calls st') (db_name db) collectionName
         (default filter (TObj [])) None = Returned documents ->
       handler driver (FindDocuments dbName collectionName filter (Some 0%Z)) st
       = (Returned ("Found " ++ dec (List.length documents) ++ " document(s):"
                      ++ two_newlines ++ formatJsonOutput (TArr documents)),
          with_call st'
            (FindToArray (db_name db) collectionName (default filter (TObj [])) None)).
Proof.
  split; [reflexivity|].
  intros db st' documents Hconn Hfind.
  unfold handler, failing, try_catch, bind, call. rewrite Hconn.
  simpl truthy. cbv iota. rewrite Hfind. reflexivity.
Qed.

Lemma find_limit_zero_applies_no_cap_witness :
  let uri := "mongodb://localhost:27017" in
  let db := {| db_client := uri; db_name := "shop" |} in
  let st' := {| MONGODB_URI := Some uri; mongoClient := Some uri;
                databases := [("shop", db)];
                calls := [NewMongoClient uri; Connect; ClientDb "shop"] |} in
  handler sample_driver (FindDocuments "shop" "people" None (Some 0%Z))
    (fresh_process (Some uri))
  = (Returned ("Found " ++ dec (List.length two_documents) ++ " document(s):"
                 ++ two_newlines ++ formatJsonOutput (TArr two_documents)),
     with_call st' (FindToArray (db_name db) "people" (default None (TObj [])) None))
  /\ findToArray sample_driver (calls st') "shop" "people" (TObj []) (Some 0%Z)
     = Returned [].
Proof.
  intros uri db st'. split; [|reflexivity].
  destruct (find_limit_zero_applies_no_cap sample_driver "shop" "people" None
              (fresh_process (Some uri))) as [_ H].
  apply (H db st' two_documents); reflexivity.
Defined.

(** ** The formatter: what the two regular expressions match *)

Lemma strip_prefix_iff (p : string) : forall s rest,
  strip_prefix p s = Some rest <-> s = p ++ rest.
Proof.
  induction p as [|c p IH]; intros s rest; simpl.
  - split; [intros [= ->] | intros ->]; reflexivity.
  - destruct s as [|c' s']; [split; discriminate|].
    destruct (Ascii.eqb_spec c c') as [->|Hne].
    + rewrite IH. split; [intros -> | intros [= ->]]; reflexivity.
    + split; [discriminate | intros [= ? ?]; congruence].
Qed.

Lemma strip_prefix_app (a b : string) : forall s,
  strip_prefix (a ++ b) s =
  match strip_prefix a s with
  | Some s' => strip_prefix b s'
  | None => None
  end.
Proof.
  induction a as [|c a IH]; intros s; simpl; [reflexivity|].
  destruct s as [|c' s']; [reflexivity|].
  destruct (Ascii.eqb c c'); [apply IH | reflexivity].
Qed.

(** Literal characters match the text they spell. *)
Lemma exec_lits (p : string) (re : list Atom) : forall s,
  exec (lits p ++ re) s =
  match strip_prefix p s with
  | Some s' => exec re s'
  | None => None
  end.
Proof.
  induction p as [|c p IH]; intros s; [reflexivity|].
  change (lits (String c p) ++ re)%list with (Lit c :: (lits p ++ re))%list.
  simpl. destruct s as [|c' s']; [reflexivity|].
  destruct (Ascii.eqb c c'); [apply IH | reflexivity].
Qed.

Lemma exec_digits_cons (re : list Atom) (c : ascii) (s : string) :
  exec (Digits :: re) (String c s) =
  if is_digit c then
    match exec (Digits :: re) s with
    | Some (group, rest) => Some (String c group, rest)
    | None =>
        match exec re s with
        | Some (_, rest) => Some (String c "", rest)
        | None => None
        end
    end
  else None.
Proof. reflexivity. Qed.

Lemma span_digits_none (s rest : string) :
  span_digits s = ("", rest) -> rest = s.
Proof.
  destruct s as [|c s]; simpl; [now intros [= <-]|].
  destruct (is_digit c); [destruct (span_digits s); discriminate | now intros [= <-]].
Qed.

Lemma span_digits_some (s : string) (c : ascii) (n rest : string) :
  span_digits s = (String c n, rest) ->
  exists s', s = String c s' /\ is_digit c = true /\ span_digits s' = (n, rest).
Proof.
  destruct s as [|c' s]; simpl; [discriminate|].
  destruct (is_digit c') eqn:Hc; [|discriminate].
  destruct (span_digits s) as [n' rest'] eqn:Hs.
  intros [= ? ? ?]. subst. exists s. repeat split; assumption.
Qed.

(** Behind [(\d+)] comes a character that is no digit, so giving digits
    back never helps: the group is the longest run of digits. *)
Lemma exec_digits (re : list Atom) :
  (forall c s, is_digit c = true -> exec re (String c s) = None) ->
  forall s,
    exec (Digits :: re) s =
    let (n, s2) := span_digits s in
    match n with
    | EmptyString => None
    | String _ _ =>
        match exec re s2 with
        | Some (_, rest) => Some (n, rest)
        | None => None
        end
    end.
Proof.
  intros Hre. induction s as [|c s IH]; [reflexivity|].
  rewrite exec_digits_cons, IH. simpl span_digits.
  destruct (is_digit c) eqn:Hc; [|reflexivity].
  destruct (span_digits s) as [n s2] eqn:Hs. destruct n as [|d n].
  - apply span_digits_none in Hs. subst s2.
    destruct (exec re s) as [[g rest]|]; reflexivity.
  - destruct (exec re s2) as [[g rest]|]; [reflexivity|].
    apply span_digits_some in Hs. destruct Hs as (s' & -> & Hd & _).
    now rewrite Hre.
Qed.

Lemma digit_not (c d : ascii) :
  is_digit d = false -> is_digit c = true -> Ascii.eqb d c = false.
Proof.
  intros Hd Hc. destruct (Ascii.eqb_spec d c) as [->|]; [congruence | reflexivity].
Qed.

Lemma exec_lit_cons (c c' : ascii) (re : list Atom) (s : string) :
  exec (Lit c :: re) (String c' s) = if Ascii.eqb c c' then exec re s else None.
Proof. reflexivity. Qed.

Lemma exec_opt_cons (c c' : ascii) (re : list Atom) (s : string) :
  exec (Opt c :: re) (String c' s) =
  match (if Ascii.eqb c c' then exec re s else None) with
  | Some r => Some r
  | None => exec re (String c' s)
  end.
Proof. reflexivity. Qed.

Lemma strip_prefix_cons (c c' : ascii) (p s : string) :
  strip_prefix (String c p) (String c' s)
  = if Ascii.eqb c c' then strip_prefix p s else None.
Proof. reflexivity. Qed.

(** Literal text that starts with no digit does not match at a digit. *)
Lemma exec_lits_rejects_digit (p : string) (re : list Atom) (c0 : ascii) (p' : string)
    (c : ascii) (s : string) :
  p = String c0 p' ->
  is_digit c0 = false ->
  is_digit c = true ->
  exec (lits p ++ re) (String c s) = None.
Proof.
  intros -> H0 Hc.
  now rewrite exec_lits, strip_prefix_cons, (digit_not c c0).
Qed.

(** The optional dot and the closing quote: the dot is taken when a
    quote follows it, and else only the quote is. *)
Lemma exec_optional_dot (s : string) :
  exec [Opt "."%char; Lit dquote] s =
  match strip_prefix (String "."%char (String dquote "")) s with
  | Some rest => Some ("", rest)
  | None =>
      match strip_prefix (String dquote "") s with
      | Some rest => Some ("", rest)
      | None => None
      end
  end.
Proof.
  destruct s as [|c s]; [reflexivity|].
  rewrite exec_opt_cons, exec_lit_cons, !strip_prefix_cons.
  destruct (Ascii.eqb_spec "."%char c) as [<-|Hne].
  - destruct s as [|c' s]; [reflexivity|].
    rewrite exec_lit_cons, strip_prefix_cons.
    destruct (Ascii.eqb dquote c'); reflexivity.
  - destruct (Ascii.eqb dquote c); reflexivity.
Qed.

(** A regular expression of the shape opening text, [(\d+)], closing
    text that starts with no digit, and a tail. *)
Lemma exec_marker (opening closing : string) (tail : list Atom)
    (c0 : ascii) (closing' : string) :
  closing = String c0 closing' ->
  is_digit c0 = false ->
  forall s,
    exec (lits opening ++ Digits :: (lits closing ++ tail)) s =
    match strip_prefix opening s with
    | Some s1 =>
        let (n, s2) := span_digits s1 in
        match n with
        | EmptyString => None
        | String _ _ =>
            match strip_prefix closing s2 with
            | Some s3 =>
                match exec tail s3 with
                | Some (_, rest) => Some (n, rest)
                | None => None
                end
            | None => None
            end
        end
    | None => None
    end.
Proof.
  intros Hc H0 s. rewrite exec_lits.
  destruct (strip_prefix opening s) as [s1|]; [|reflexivity].
  rewrite exec_digits.
  - destruct (span_digits s1) as [n s2]. destruct n as [|d n]; [reflexivity|].
    rewrite exec_lits. destruct (strip_prefix closing s2); reflexivity.
  - intros c s' Hd. now apply (exec_lits_rejects_digit closing tail c0 closing').
Qed.

(** The two forms of the pair differ in the end of the closing text. *)
Lemma marker_at_either (opening common end3 end2 s : string) :
  match marker_at opening (common ++ end3) s with
  | Some r => Some r
  | None => marker_at opening (common ++ end2) s
  end =
  match strip_prefix opening s with
  | Some s1 =>
      let (n, s2) := span_digits s1 in
      match n with
      | EmptyString => None
      | String _ _ =>
          match strip_prefix common s2 with
          | Some s3 =>
              match strip_prefix end3 s3 with
              | Some rest => Some (n, rest)
              | None =>
                  match strip_prefix end2 s3 with
                  | Some rest => Some (n, rest)
                  | None => None
                  end
              end
          | None => None
          end
      end
  | None => None
  end.
Proof.
  unfold marker_at.
  destruct (strip_prefix opening s) as [s1|]; [|reflexivity].
  destruct (span_digits s1) as [n s2]. destruct n as [|d n]; [reflexivity|].
  rewrite 2 strip_prefix_app.
  destruct (strip_prefix common s2) as [s3|]; [|reflexivity].
  destruct (strip_prefix end3 s3); reflexivity.
Qed.

Lemma re_items_shape :
  re_items =
  (lits (String dquote "...")
     ++ Digits :: (lits (" more items" ++ String dquote "") ++ []))%list.
Proof. reflexivity. Qed.

Lemma re_properties_shape :
  re_properties =
  (lits (String dquote "...")
     ++ Digits
     :: (lits (" more properties" ++ String dquote (": " ++ String dquote ".."))
           ++ [Opt "."%char; Lit dquote]))%list.
Proof. reflexivity. Qed.

Lemma properties_either_at_shape (s : string) :
  properties_either_at s =
  match marker_at (String dquote "...")
          ((" more properties" ++ String dquote (": " ++ String dquote ".."))
             ++ String "."%char (String dquote "")) s with
  | Some r => Some r
  | None =>
      marker_at (String dquote "...")
        ((" more properties" ++ String dquote (": " ++ String dquote ".."))
           ++ String dquote "") s
  end.
Proof. reflexivity. Qed.

Lemma exec_re_items (s : string) : exec re_items s = items_marker_at s.
Proof.
  rewrite re_items_shape.
  rewrite (exec_marker _ _ _ " "%char ("more items" ++ String dquote ""));
    [|reflexivity|reflexivity].
  unfold items_marker_at, marker_at.
  destruct (strip_prefix (String dquote "...") s) as [s1|]; [|reflexivity].
  destruct (span_digits s1) as [n s2]. destruct n as [|d n]; [reflexivity|].
  destruct (strip_prefix (" more items" ++ String dquote "") s2); reflexivity.
Qed.

Lemma exec_re_properties (s : string) : exec re_properties s = properties_either_at s.
Proof.
  rewrite re_properties_shape, properties_either_at_shape, marker_at_either.
  rewrite (exec_marker _ _ _ " "%char
             ("more properties" ++ String dquote (": " ++ String dquote "..")));
    [|reflexivity|reflexivity].
  destruct (strip_prefix (String dquote "...") s) as [s1|]; [|reflexivity].
  destruct (span_digits s1) as [n s2]. destruct n as [|d n]; [reflexivity|].
  destruct (strip_prefix
              (" more properties" ++ String dquote (": " ++ String dquote "..")) s2)
    as [s3|]; [|reflexivity].
  rewrite exec_optional_dot.
  destruct (strip_prefix (String "."%char (String dquote "")) s3); [reflexivity|].
  destruct (strip_prefix (String dquote "") s3); reflexivity.
Qed.

Lemma scan_ext (find1 find2 : string -> option (string * string))
    (subst1 subst2 : string -> string) :
  (forall s, find1 s = find2 s) ->
  (forall g, subst1 g = subst2 g) ->
  forall fuel text, scan find1 subst1 fuel text = scan find2 subst2 fuel text.
Proof.
  intros Hf Hs. induction fuel as [|fuel IH]; intros text; [reflexivity|].
  simpl. destruct text as [|c text]; [reflexivity|].
  rewrite Hf. destruct (find2 (String c text)) as [[g rest]|].
  - now rewrite Hs, IH.
  - now rewrite IH.
Qed.

Lemma replace_items (text : string) :
  replace re_items [Text "..."; Group1; Text " more items"] text = unwrap_items text.
Proof.
  unfold replace, unwrap_items, replace_all. apply scan_ext.
  - apply exec_re_items.
  - intros g. reflexivity.
Qed.

Lemma replace_properties (text : string) :
  replace re_properties [Text "..."; Group1; Text " more properties"] text
  = unwrap_properties_either text.
Proof.
  unfold replace, unwrap_properties_either, replace_all. apply scan_ext.
  - apply exec_re_properties.
  - intros g. reflexivity.
Qed.

(** C6, as the code has it. The formatter serializes the bounded value
    with an indentation of two spaces, rewrites from left to right every
    quoted string [...<n> more items] into the bare text, then every pair
    of the key [...<n> more properties] and the value [...] or [..] into
    the bare key, and leaves every other character as it is. *)
Theorem formatter_rewrites_markers (data : TreeValue) :
  formatJsonOutput data =
  unwrap_properties_either
    (unwrap_items
       (JSON_stringify_indented (truncateForOutput data default_maxOutputLength))).
Proof.
  unfold formatJsonOutput. now rewrite replace_items, replace_properties.
Qed.

(** C6, as the specification words it, fails: the pair of the key
    [...5 more properties] and the two-dot value [..] is no serialized
    object-truncation marker (its value is not [...]), and the formatter
    rewrites it all the same. *)
Lemma formatter_counterexample :
  let data := TArr [TObj [("...5 more properties", TStr "..")]] in
  formatJsonOutput data <>
  unwrap_properties
    (unwrap_items
       (JSON_stringify_indented (truncateForOutput data default_maxOutputLength)))
  /\ unwrap_properties
       (unwrap_items
          (JSON_stringify_indented (truncateForOutput data default_maxOutputLength)))
     = JSON_stringify_indented data
  /\ formatJsonOutput data =
     "[" ++ String newline ("  {" ++ String newline ("    ...5 more properties"
         ++ String newline ("  }" ++ String newline "]"))).
Proof.
  intros data. split; [|split].
  - vm_compute. discriminate.
  - vm_compute. reflexivity.
  - vm_compute. reflexivity.
Qed.

(** ** The formatter: markers as text *)

Lemma span_digits_sound : forall s n rest,
  span_digits s = (n, rest) -> s = n ++ rest /\ all_digits n = true.
Proof.
  induction s as [|c s IH]; simpl; intros n rest H.
  - injection H as <- <-. split; reflexivity.
  - destruct (is_digit c) eqn:Hc.
    + destruct (span_digits s) as [n' rest'].
      injection H as <- <-. destruct (IH n' rest' eq_refl) as [-> Hn].
      split; [reflexivity | simpl; now rewrite Hc].
    + injection H as <- <-. split; reflexivity.
Qed.

Lemma span_digits_cons (c : ascii) (s : string) :
  span_digits (String c s) =
  if is_digit c then let (n, rest) := span_digits s in (String c n, rest)
  else ("", String c s).
Proof. reflexivity. Qed.

Lemma span_digits_app (n t : string) :
  all_digits n = true ->
  (forall c r, t = String c r -> is_digit c = false) ->
  span_digits (n ++ t) = (n, t).
Proof.
  intros Hn Ht. induction n as [|c n IH]; cbn [append].
  - destruct t as [|c r]; [reflexivity|].
    now rewrite span_digits_cons, (Ht c r eq_refl).
  - cbn [all_digits] in Hn. apply andb_true_iff in Hn. destruct Hn as [Hc Hn].
    now rewrite span_digits_cons, Hc, IH.
Qed.

(** What [marker_at] finds is the opening text, a non-empty run of
    digits and the closing text. *)
Lemma marker_at_sound (opening closing s n rest : string) :
  marker_at opening closing s = Some (n, rest) ->
  n <> "" /\ all_digits n = true /\ s = opening ++ n ++ closing ++ rest.
Proof.
  unfold marker_at.
  destruct (strip_prefix opening s) as [s1|] eqn:H1; [|discriminate].
  destruct (span_digits s1) as [m s2] eqn:H2.
  destruct m as [|d m]; [discriminate|].
  destruct (strip_prefix closing s2) as [r|] eqn:H3; [|discriminate].
  intros [= <- <-].
  apply strip_prefix_iff in H1, H3. apply span_digits_sound in H2.
  destruct H2 as [-> Hd]. subst. repeat split; [discriminate | exact Hd].
Qed.

(** And it finds every such text, when the closing text starts with no
    digit. *)
Lemma marker_at_complete (opening closing : string) (c0 : ascii) (closing' : string)
    (n rest : string) :
  closing = String c0 closing' ->
  is_digit c0 = false ->
  n <> "" ->
  all_digits n = true ->
  marker_at opening closing (opening ++ n ++ closing ++ rest) = Some (n, rest).
Proof.
  intros Hc H0 Hn Hd. unfold marker_at.
  assert (strip_prefix opening (opening ++ n ++ closing ++ rest)
          = Some (n ++ closing ++ rest)) as -> by now apply strip_prefix_iff.
  rewrite span_digits_app.
  - destruct n as [|d n]; [contradiction|].
    assert (strip_prefix closing (closing ++ rest) = Some rest) as ->
      by now apply strip_prefix_iff.
    reflexivity.
  - exact Hd.
  - intros c r Hr. rewrite Hc in Hr. simpl in Hr. now injection Hr as <- _.
Qed.

Lemma items_marker_at_iff (s n rest : string) :
  items_marker_at s = Some (n, rest)
  <-> n <> "" /\ all_digits n = true /\ s = items_marker_text n ++ rest.
Proof.
  assert (items_marker_text n ++ rest
          = String dquote "..." ++ n ++ (" more items" ++ String dquote "") ++ rest)
    as E.
  { unfold items_marker_text. simpl. now rewrite !append_assoc. }
  rewrite E. split.
  - apply marker_at_sound.
  - intros (Hn & Hd & ->).
    now apply (marker_at_complete _ _ " "%char ("more items" ++ String dquote "")).
Qed.

Lemma marker_either_iff (opening common end3 end2 : string)
    (c0 : ascii) (common' : string) :
  common = String c0 common' ->
  is_digit c0 = false ->
  (forall rest, strip_prefix end3 (end2 ++ rest) = None) ->
  forall s n rest,
    match marker_at opening (common ++ end3) s with
    | Some r => Some r
    | None => marker_at opening (common ++ end2) s
    end = Some (n, rest)
    <-> n <> "" /\ all_digits n = true
        /\ (s = opening ++ n ++ (common ++ end3) ++ rest
            \/ s = opening ++ n ++ (common ++ end2) ++ rest).
Proof.
  intros Hc H0 Hends s n rest. split.
  - destruct (marker_at opening (common ++ end3) s) as [[n' rest']|] eqn:H3.
    + intros [= -> ->]. apply marker_at_sound in H3. tauto.
    + intros H2. apply marker_at_sound in H2. tauto.
  - intros (Hn & Hd & [-> | ->]).
    + rewrite (marker_at_complete opening (common ++ end3) c0 (common' ++ end3));
        try assumption; [reflexivity | now rewrite Hc].
    + rewrite marker_at_either, append_assoc.
      assert (strip_prefix opening (opening ++ n ++ common ++ end2 ++ rest)
              = Some (n ++ common ++ end2 ++ rest)) as -> by now apply strip_prefix_iff.
      rewrite span_digits_app.
      * destruct n as [|d n]; [contradiction|].
        assert (strip_prefix common (common ++ end2 ++ rest) = Some (end2 ++ rest))
          as -> by now apply strip_prefix_iff.
        rewrite Hends.
        assert (strip_prefix end2 (end2 ++ rest) = Some rest) as ->
          by now apply strip_prefix_iff.
        reflexivity.
      * exact Hd.
      * intros c r Hr. rewrite Hc in Hr. simpl in Hr. now injection Hr as <- _.
Qed.

Lemma properties_either_at_iff (s n rest : string) :
  properties_either_at s = Some (n, rest)
  <-> n <> "" /\ all_digits n = true
      /\ (s = properties_marker_text n ++ rest
          \/ s = properties_short_text n ++ rest).
Proof.
  assert (properties_marker_text n ++ rest
          = String dquote "..." ++ n
              ++ ((" more properties" ++ String dquote (": " ++ String dquote ".."))
                    ++ String "."%char (String dquote "")) ++ rest)
    as ->.
  { unfold properties_marker_text. simpl. now rewrite !append_assoc. }
  assert (properties_short_text n ++ rest
          = String dquote "..." ++ n
              ++ ((" more properties" ++ String dquote (": " ++ String dquote ".."))
                    ++ String dquote "") ++ rest)
    as ->.
  { unfold properties_short_text. simpl. now rewrite !append_assoc. }
  rewrite properties_either_at_shape.
  apply (marker_either_iff _ _ _ _ " "%char
           ("more properties" ++ String dquote (": " ++ String dquote "..")));
    reflexivity.
Qed.

(** ** The formatter: the scan reaches the end of the text *)

Section Scan.

Variable find : string -> option (string * string).
Variable subst : string -> string.

(** A match takes at least one character of the text. *)
Hypothesis find_consumes :
  forall s g rest, find s = Some (g, rest) -> (length rest < length s)%nat.

Lemma scan_fuel_enough : forall fuel text,
  (length text <= fuel)%nat ->
  scan find subst fuel text = scan find subst (length text) text.
Proof.
  induction fuel as [fuel IH] using lt_wf_ind. intros text Hlen.
  destruct text as [|c text]; [destruct fuel; reflexivity|].
  destruct fuel as [|fuel]; [simpl in Hlen; lia|].
  simpl in Hlen. simpl.
  destruct (find (String c text)) as [[g rest]|] eqn:Hf.
  - apply find_consumes in Hf. simpl in Hf.
    rewrite (IH fuel) by lia. rewrite (IH (length text)) by lia. reflexivity.
  - rewrite (IH fuel) by lia. reflexivity.
Qed.

Lemma replace_all_empty : replace_all find subst "" = "".
Proof. reflexivity. Qed.

(** At a match, the replacement is written and the scan goes on behind
    the match. *)
Lemma replace_all_match (text g rest : string) :
  find text = Some (g, rest) ->
  replace_all find subst text = subst g ++ replace_all find subst rest.
Proof.
  intros Hf. unfold replace_all.
  pose proof (find_consumes _ _ _ Hf) as Hlt.
  destruct text as [|c text]; [simpl in Hlt; lia|].
  simpl in Hlt. simpl. rewrite Hf.
  now rewrite scan_fuel_enough by lia.
Qed.

(** Elsewhere, the character is copied. *)
Lemma replace_all_copy (c : ascii) (text : string) :
  find (String c text) = None ->
  replace_all find subst (String c text) = String c (replace_all find subst text).
Proof.
  intros Hf. unfold replace_all. simpl. now rewrite Hf.
Qed.

End Scan.

Lemma marker_at_consumes (opening closing s n rest : string) :
  marker_at opening closing s = Some (n, rest) -> (length rest < length s)%nat.
Proof.
  intros H. apply marker_at_sound in H. destruct H as (Hn & _ & ->).
  rewrite !length_append. destruct n; [contradiction | simpl; lia].
Qed.

Lemma properties_either_at_consumes (s n rest : string) :
  properties_either_at s = Some (n, rest) -> (length rest < length s)%nat.
Proof.
  unfold properties_either_at.
  destruct (properties_marker_at s) as [[n' rest']|] eqn:H3.
  - intros [= -> ->]. exact (marker_at_consumes _ _ _ _ _ H3).
  - apply marker_at_consumes.
Qed.

(** ** The formatter: the markers the bounding engine writes *)

Lemma string_of_uint_digits (d : Decimal.uint) :
  all_digits (NilEmpty.string_of_uint d) = true.
Proof.
  induction d; simpl; try reflexivity; exact IHd.
Qed.

Lemma dec_digits (k : nat) : all_digits (dec k) = true /\ dec k <> "".
Proof.
  split; [apply string_of_uint_digits|].
  unfold dec. intros H.
  assert (Nat.to_uint k = Decimal.Nil) as Hnil
    by (destruct (Nat.to_uint k); (reflexivity || discriminate)).
  pose proof (DecimalNat.Unsigned.to_of (Nat.to_uint k)) as Hto.
  rewrite DecimalNat.Unsigned.of_to in Hto.
  rewrite Hnil in Hto. discriminate.
Qed.

Lemma quote_units_app (a b : string) :
  quote_units (a ++ b) = quote_units a ++ quote_units b.
Proof.
  induction a as [|c a IH]; simpl; [reflexivity|].
  now rewrite IH, append_assoc.
Qed.

Lemma quote_unit_digit (c : ascii) : is_digit c = true -> quote_unit c = String c "".
Proof.
  unfold is_digit, quote_unit. intros H.
  apply andb_true_iff in H. destruct H as [Hlo Hhi].
  apply N.leb_le in Hlo, Hhi.
  repeat match goal with
         | |- context [(?n =? ?m)%N] => destruct (N.eqb_spec n m); [lia|]
         end.
  destruct (N.ltb_spec (N_of_ascii c) 32); [lia | reflexivity].
Qed.

Lemma quote_units_digits (n : string) : all_digits n = true -> quote_units n = n.
Proof.
  induction n as [|c n IH]; intros H; [reflexivity|].
  cbn [all_digits] in H. apply andb_true_iff in H. destruct H as [Hc Hn].
  cbn [quote_units]. now rewrite (quote_unit_digit c Hc), IH.
Qed.

(** The array marker of the engine, serialized, is a marker text. *)
Lemma quote_items_marker (k : nat) :
  quote (items_marker k) = items_marker_text (dec k).
Proof.
  unfold quote, items_marker, items_marker_text.
  rewrite !quote_units_app, (quote_units_digits (dec k)) by apply dec_digits.
  simpl. now rewrite !append_assoc.
Qed.

(** The object marker of the engine: the key and its value, as the
    indented serialization writes a property. *)
Lemma quote_properties_marker (k : nat) :
  quote (properties_marker k) ++ ": " ++ quote "..."
  = properties_marker_text (dec k).
Proof.
  unfold quote at 1. unfold properties_marker, properties_marker_text.
  rewrite !quote_units_app, (quote_units_digits (dec k)) by apply dec_digits.
  simpl. now rewrite !append_assoc.
Qed.

(** Where the scan meets a marker of the engine, the bare annotation is
    written. *)
Lemma unwrap_items_engine_marker (k : nat) (rest : string) :
  unwrap_items (quote (items_marker k) ++ rest)
  = items_marker k ++ unwrap_items rest.
Proof.
  rewrite quote_items_marker. unfold unwrap_items.
  change (items_marker k) with (items_annotation (dec k)).
  apply replace_all_match.
  - intros s g r. apply marker_at_consumes.
  - apply items_marker_at_iff. destruct (dec_digits k). auto.
Qed.

Lemma unwrap_properties_engine_marker (k : nat) (rest : string) :
  unwrap_properties_either
    ((quote (properties_marker k) ++ ": " ++ quote "...") ++ rest)
  = properties_marker k ++ unwrap_properties_either rest.
Proof.
  rewrite quote_properties_marker. unfold unwrap_properties_either.
  change (properties_marker k) with (properties_annotation (dec k)).
  apply replace_all_match.
  - apply properties_either_at_consumes.
  - apply properties_either_at_iff. destruct (dec_digits k). auto.
Qed.

(** Two documents over the budget: the second is dropped, the first
    keeps 200 of its 201 properties, and both markers are written as
    bare annotations. *)
Example formatted_over_budget :
  formatJsonOutput
    (TArr [TObj (keyed 201 (TStr (text_of 150))); TObj (keyed 3 TNull)])
  = "[" ++ String newline ("  {" ++ String newline
      (concat ""
         (map (fun i => "    " ++ quote ("k" ++ dec i) ++ ": " ++ quote (text_of 150)
                          ++ "," ++ String newline "")
              (seq 0 200))
       ++ "    ...1 more properties" ++ String newline ("  },"
       ++ String newline ("  ...1 more items" ++ String newline "]")))).
Proof. apply String.eqb_eq. vm_compute. reflexivity. Qed.

(** * Further properties of the code *)

(** ** The bounding engine: values it leaves alone, shapes it produces *)

Lemma within_caps_arr (items : list TreeValue) :
  within_caps (TArr items)
  = ((List.length items <=? 1)%nat && forallb within_caps items).
Proof. reflexivity. Qed.

Lemma within_caps_obj (props : list (string * TreeValue)) :
  within_caps (TObj props)
  = ((List.length props <=? 200)%nat
     && distinct (map fst props)
     && negb (existsb (String.eqb "__proto__") (map fst props))
     && forallb (fun kv => let '(_, x) := kv in within_caps x) props).
Proof. reflexivity. Qed.

Lemma truncateValue_within_caps (v : TreeValue) :
  within_caps v = true -> truncateValue v = v.
Proof.
  induction v as [| b | n | s | items IH | props IH] using TreeValue_nested_ind;
    intros H; try reflexivity.
  - rewrite truncateValue_str. change (within_caps (TStr s)) with (length s <=? 200)%nat in H.
    apply Nat.leb_le in H.
    destruct (Nat.ltb_spec 200 (length s)); [lia | reflexivity].
  - rewrite within_caps_arr in H. apply andb_true_iff in H. destruct H as [Hlen Hall].
    rewrite truncateValue_arr, Hlen. f_equal. apply map_fixed.
    rewrite forallb_forall in Hall. rewrite Forall_forall in *.
    intros x Hx. apply IH; auto.
  - rewrite within_caps_obj in H. apply andb_true_iff in H. destruct H as [H Hall].
    apply andb_true_iff in H. destruct H as [H Hproto].
    apply andb_true_iff in H. destruct H as [Hlen Hdist].
    rewrite truncateValue_obj, Hlen. f_equal.
    rewrite assign_each_distinct.
    2: { apply distinct_NoDup. exact Hdist. }
    2: { intros Hin. apply negb_true_iff in Hproto.
         assert (existsb (String.eqb "__proto__") (map fst props) = true) as E.
         { apply existsb_exists. exists "__proto__". split; [exact Hin | reflexivity]. }
         congruence. }
    rewrite app_nil_l. apply map_fixed.
    rewrite forallb_forall in Hall. rewrite Forall_forall in *.
    intros [k x] Hkx. simpl. f_equal. apply (IH (k, x) Hkx). exact (Hall (k, x) Hkx).
Qed.

(** X1. A value within the three caps at every depth, none of whose
    objects has the name [__proto__], is returned as it is whatever the
    budget: over the budget, the rewrite finds nothing to shorten. *)
Theorem within_caps_unchanged (v : TreeValue) (budget : Z) :
  within_caps v = true -> truncateForOutput v budget = v.
Proof.
  intros H. unfold truncateForOutput.
  destruct (Z.of_nat (length (JSON_stringify v)) <=? budget)%Z; [reflexivity|].
  now apply truncateValue_within_caps.
Qed.

Lemma within_caps_unchanged_witness :
  let v := TObj (keyed 200 (TArr [TStr (text_of 200)])) in
  (default_maxOutputLength < size v)%Z
  /\ truncateForOutput v default_maxOutputLength = v.
Proof.
  intros v. split.
  - apply Z.ltb_lt. vm_compute. reflexivity.
  - apply within_caps_unchanged. vm_compute. reflexivity.
Defined.

Lemma length_store (key : string) (v : TreeValue) (result : list (string * TreeValue)) :
  (List.length (store key v result) <= S (List.length result))%nat.
Proof.
  induction result as [|[k x] rest IH]; simpl; [lia|].
  destruct (String.eqb k key); simpl; lia.
Qed.

Lemma length_assign (key : string) (v : TreeValue) (result : list (string * TreeValue)) :
  (List.length (assign key v result) <= S (List.length result))%nat.
Proof.
  unfold assign. destruct (String.eqb key "__proto__"); [lia | apply length_store].
Qed.

Lemma length_assign_each (f : TreeValue -> TreeValue) :
  forall props result,
    (List.length (assign_each f props result)
     <= List.length result + List.length props)%nat.
Proof.
  induction props as [|[k x] rest IH]; intros result; simpl; [lia|].
  specialize (IH (assign k (f x) result)).
  pose proof (length_assign k (f x) result). lia.
Qed.

Lemma Forall_assign (P : TreeValue -> Prop) (key : string) (v : TreeValue)
    (result : list (string * TreeValue)) :
  P v ->
  Forall (fun kv => P (snd kv)) result ->
  Forall (fun kv => P (snd kv)) (assign key v result).
Proof.
  intros Hv Hr. unfold assign. destruct (String.eqb key "__proto__"); [exact Hr|].
  induction Hr as [|[k x] rest Hx Hrest IH]; simpl.
  - constructor; [exact Hv | constructor].
  - destruct (String.eqb k key); constructor; auto.
Qed.

Lemma Forall_assign_each (P : TreeValue -> Prop) (f : TreeValue -> TreeValue) :
  forall props result,
    Forall (fun kv => P (f (snd kv))) props ->
    Forall (fun kv => P (snd kv)) result ->
    Forall (fun kv => P (snd kv)) (assign_each f props result).
Proof.
  induction props as [|[k x] rest IH]; intros result Hp Hr; simpl; [exact Hr|].
  apply IH.
  - now apply Forall_inv_tail in Hp.
  - apply Forall_assign; [|exact Hr]. now apply Forall_inv in Hp.
Qed.

Lemma capped_shape_arr (items : list TreeValue) :
  capped_shape (TArr items)
  = ((List.length items <=? 2)%nat && forallb capped_shape items).
Proof. reflexivity. Qed.

Lemma capped_shape_obj (props : list (string * TreeValue)) :
  capped_shape (TObj props)
  = ((List.length props <=? 201)%nat
     && forallb (fun kv => let '(_, x) := kv in capped_shape x) props).
Proof. reflexivity. Qed.

Lemma capped_shape_obj_intro (props : list (string * TreeValue)) :
  (List.length props <= 201)%nat ->
  Forall (fun kv => capped_shape (snd kv) = true) props ->
  capped_shape (TObj props) = true.
Proof.
  intros Hlen Hall. rewrite capped_shape_obj. apply andb_true_iff. split.
  - now apply Nat.leb_le.
  - apply forallb_forall. rewrite Forall_forall in Hall.
    intros [k x] Hkx. exact (Hall (k, x) Hkx).
Qed.

(** X2. Whatever the value, its rewrite has no array of more than two
    elements and no object of more than 201 names, at any depth. *)
Theorem truncateValue_capped_shape (v : TreeValue) :
  capped_shape (truncateValue v) = true.
Proof.
  induction v as [| b | n | s | items IH | props IH] using TreeValue_nested_ind;
    try reflexivity.
  - rewrite truncateValue_str. destruct (200 <? length s)%nat; reflexivity.
  - rewrite truncateValue_arr.
    destruct (Nat.leb_spec (List.length items) 1) as [Hlen|Hlen].
    + rewrite capped_shape_arr, length_map. apply andb_true_iff. split.
      * apply Nat.leb_le. lia.
      * apply forallb_forall. intros y Hy. apply in_map_iff in Hy.
        destruct Hy as (x & <- & Hx). rewrite Forall_forall in IH. now apply IH.
    + destruct items as [|first rest]; [reflexivity|].
      apply Forall_inv in IH. rewrite capped_shape_arr.
      cbn [forallb List.length]. rewrite IH. reflexivity.
  - assert (Forall (fun kv => capped_shape (truncateValue (snd kv)) = true) props)
      as Hall by exact IH.
    rewrite truncateValue_obj.
    destruct (Nat.leb_spec (List.length props) 200) as [Hlen|Hlen].
    + apply capped_shape_obj_intro.
      * pose proof (length_assign_each truncateValue props []). simpl in *. lia.
      * apply (Forall_assign_each (fun x => capped_shape x = true));
          [exact Hall | constructor].
    + rewrite assign_first_firstn. apply capped_shape_obj_intro.
      * pose proof (length_assign (properties_marker (List.length props - 200))
                      (TStr "...") (assign_each truncateValue (firstn 200 props) [])).
        pose proof (length_assign_each truncateValue (firstn 200 props) []).
        pose proof (firstn_le_length 200 props).
        simpl List.length in *. lia.
      * apply (Forall_assign (fun x => capped_shape x = true)); [reflexivity|].
        apply (Forall_assign_each (fun x => capped_shape x = true)); [|constructor].
        now apply Forall_firstn.
Qed.

Lemma depth_arr_le (items : list TreeValue) (n : nat) :
  Forall (fun x => (depth x <= n)%nat) items -> (depth (TArr items) <= S n)%nat.
Proof.
  intros H. simpl. apply le_n_S.
  induction H as [|x rest Hx _ IH]; simpl; lia.
Qed.

Lemma depth_obj_le (props : list (string * TreeValue)) (n : nat) :
  Forall (fun kv => (depth (snd kv) <= n)%nat) props -> (depth (TObj props) <= S n)%nat.
Proof.
  intros H. simpl. apply le_n_S.
  induction H as [|[k x] rest Hx _ IH]; simpl in *; lia.
Qed.

(** X3. The rewrite never nests deeper than the value it is given. *)
Theorem truncateValue_depth (v : TreeValue) :
  (depth (truncateValue v) <= depth v)%nat.
Proof.
  induction v as [| b | n | s | items IH | props IH] using TreeValue_nested_ind;
    try (simpl; lia).
  - rewrite truncateValue_str. destruct (200 <? length s)%nat; simpl; lia.
  - pose proof (depth_item items) as Hd.
    destruct (depth (TArr items)) as [|m] eqn:Hm; [discriminate|].
    rewrite truncateValue_arr.
    destruct (List.length items <=? 1)%nat.
    + apply depth_arr_le. apply Forall_map.
      rewrite Forall_forall in *. intros x Hx.
      specialize (IH x Hx). specialize (Hd x Hx). lia.
    + destruct items as [|first rest]; [simpl; lia|].
      apply Forall_inv in IH. apply Forall_inv in Hd.
      apply depth_arr_le. repeat constructor; simpl; lia.
  - pose proof (depth_property props) as Hd.
    destruct (depth (TObj props)) as [|m] eqn:Hm; [discriminate|].
    assert (Forall (fun kv => (depth (truncateValue (snd kv)) <= m)%nat) props) as Hall.
    { rewrite Forall_forall in *. intros kv Hkv.
      specialize (IH kv Hkv). specialize (Hd kv Hkv). lia. }
    rewrite truncateValue_obj.
    destruct (List.length props <=? 200)%nat.
    + apply depth_obj_le.
      apply (Forall_assign_each (fun x => (depth x <= m)%nat)); [exact Hall | constructor].
    + rewrite assign_first_firstn. apply depth_obj_le.
      apply (Forall_assign (fun x => (depth x <= m)%nat)); [simpl; lia|].
      apply (Forall_assign_each (fun x => (depth x <= m)%nat)); [|constructor].
      now apply Forall_firstn.
Qed.

Lemma substring_prefix_app (n : nat) : forall p x,
  length p = n -> substring 0 n (p ++ x) = p.
Proof.
  induction n as [|n IH]; intros p x Hp.
  - destruct p; [|discriminate]. destruct x; reflexivity.
  - destruct p as [|c p]; [discriminate|].
    simpl. rewrite IH; [reflexivity | now injection Hp].
Qed.

(** X4. Bounding a text twice: the second pass cuts the marker of the
    first after the same 200 units, and its count is the length of the
    suffix the first pass wrote (19 units and the digits of the first
    count), not the number of units elided from the original. *)
Theorem truncateValue_twice_on_text (s : string) :
  (200 < length s)%nat ->
  truncateValue (truncateValue (TStr s))
  = TStr (substring 0 200 s ++ "..."
            ++ dec (19 + length (dec (length s - 200))) ++ " more characters").
Proof.
  intros H.
  destruct (slice_prefix 200 s) as (tail & _ & Hp & _); [lia|].
  rewrite truncateValue_str.
  destruct (Nat.ltb_spec 200 (length s)) as [_|]; [|lia].
  rewrite truncateValue_str. unfold string_marker.
  set (p := substring 0 200 s) in *. set (d := dec (length s - 200)).
  assert (length (p ++ "..." ++ d ++ " more characters")
          = (200 + (19 + length d))%nat) as Hlen.
  { rewrite !length_append, Hp. simpl. lia. }
  rewrite Hlen.
  destruct (Nat.ltb_spec 200 (200 + (19 + length d))) as [_|]; [|lia].
  rewrite (substring_prefix_app 200 p _ Hp).
  replace (200 + (19 + length d) - 200)%nat with (19 + length d)%nat by lia.
  reflexivity.
Qed.

Lemma truncateValue_twice_on_text_witness :
  truncateValue (truncateValue (TStr (text_of (50 * 100))))
  = TStr (text_of 200 ++ "...23 more characters").
Proof.
  rewrite truncateValue_twice_on_text.
  - vm_compute. reflexivity.
  - apply Nat.ltb_lt. vm_compute. reflexivity.
Defined.

(** ** The formatter: the two regular expressions and the rewrite *)

(** X5. The first regular expression matches at the start of a text
    exactly when the text starts with a quote, three dots, a non-empty
    run of digits, [ more items] and a quote; group 1 is that run and
    the match ends behind the closing quote. *)
Theorem re_items_matches (s n rest : string) :
  exec re_items s = Some (n, rest)
  <-> n <> "" /\ all_digits n = true /\ s = items_marker_text n ++ rest.
Proof.
  rewrite exec_re_items. apply items_marker_at_iff.
Qed.

Lemma re_items_matches_witness :
  exec re_items (items_marker_text "12" ++ ",") = Some ("12", ",").
Proof.
  apply re_items_matches. repeat split. discriminate.
Defined.

(** X6. The second regular expression matches at the start of a text
    exactly when the text starts with the quoted key
    [...<n> more properties], a colon, a space and the quoted value [...]
    or [..]; group 1 is the run of digits [<n>]. *)
Theorem re_properties_matches (s n rest : string) :
  exec re_properties s = Some (n, rest)
  <-> n <> "" /\ all_digits n = true
      /\ (s = properties_marker_text n ++ rest
          \/ s = properties_short_text n ++ rest).
Proof.
  rewrite exec_re_properties. apply properties_either_at_iff.
Qed.

Lemma re_properties_matches_witness :
  exec re_properties (properties_short_text "7" ++ "}") = Some ("7", "}").
Proof.
  apply re_properties_matches. repeat split; [discriminate | now right].
Defined.

(** X7. The array marker the bounding engine writes for any count,
    once serialized, is replaced by the bare marker text, and the
    replacement goes on behind it. *)
Theorem replace_items_engine_marker (k : nat) (rest : string) :
  replace re_items items_template (quote (items_marker k) ++ rest)
  = items_marker k ++ replace re_items items_template rest.
Proof.
  unfold items_template. rewrite !replace_items. apply unwrap_items_engine_marker.
Qed.

(** X8. The object marker the bounding engine writes for any count,
    serialized as a property of an indented object, is replaced by the
    bare marker key, and the replacement goes on behind it. *)
Theorem replace_properties_engine_marker (k : nat) (rest : string) :
  replace re_properties properties_template
    ((quote (properties_marker k) ++ ": " ++ quote "...") ++ rest)
  = properties_marker k ++ replace re_properties properties_template rest.
Proof.
  unfold properties_template. rewrite !replace_properties.
  apply unwrap_properties_engine_marker.
Qed.

Lemma occurs_cons (p : string) (c : ascii) (text : string) :
  occurs p (String c text)
  = match strip_prefix p (String c text) with
    | Some _ => true
    | None => occurs p text
    end.
Proof. reflexivity. Qed.

Lemma scan_no_match (opening : string) (find : string -> option (string * string))
    (subst : string -> string) :
  (forall s, strip_prefix opening s = None -> find s = None) ->
  forall text fuel,
    occurs opening text = false -> scan find subst fuel text = text.
Proof.
  intros Hfind. induction text as [|c text IH]; intros fuel Ho.
  - destruct fuel; reflexivity.
  - rewrite occurs_cons in Ho.
    destruct (strip_prefix opening (String c text)) eqn:Hs; [discriminate|].
    destruct fuel as [|fuel]; [reflexivity|].
    simpl. rewrite (Hfind _ Hs). now rewrite IH.
Qed.

Lemma marker_at_needs_opening (opening closing s : string) :
  strip_prefix opening s = None -> marker_at opening closing s = None.
Proof.
  intros H. unfold marker_at. now rewrite H.
Qed.

(** X9. A serialization in which no quote is followed by three dots is
    returned by the formatter as it is. *)
Theorem formatter_plain_text_unchanged (data : TreeValue) :
  occurs (String dquote "...")
    (JSON_stringify_indented (truncateForOutput data default_maxOutputLength)) = false ->
  formatJsonOutput data
  = JSON_stringify_indented (truncateForOutput data default_maxOutputLength).
Proof.
  intros H. unfold formatJsonOutput, replace, replace_all.
  rewrite (scan_no_match (String dquote "...") (exec re_items)).
  - rewrite (scan_no_match (String dquote "...") (exec re_properties)).
    + reflexivity.
    + intros s Hs. rewrite exec_re_properties. unfold properties_either_at.
      unfold properties_marker_at, properties_short_at.
      now rewrite !marker_at_needs_opening.
    + exact H.
  - intros s Hs. rewrite exec_re_items. now apply marker_at_needs_opening.
  - exact H.
Qed.

Lemma formatter_plain_text_unchanged_witness :
  let data := TArr [TObj [("note", TStr "to be continued..."); ("n", TNum 3)]] in
  formatJsonOutput data = JSON_stringify_indented data.
Proof.
  intros data.
  change (JSON_stringify_indented data)
    with (JSON_stringify_indented (truncateForOutput data default_maxOutputLength)).
  apply formatter_plain_text_unchanged. vm_compute. reflexivity.
Defined.

Lemma scan_length_le (find : string -> option (string * string))
    (subst : string -> string) :
  (forall s g rest,
      find s = Some (g, rest) -> (length (subst g) + length rest <= length s)%nat) ->
  forall fuel text, (length (scan find subst fuel text) <= length text)%nat.
Proof.
  intros Hfind. induction fuel as [|fuel IH]; intros text; [simpl; lia|].
  simpl. destruct text as [|c text]; [simpl; lia|].
  destruct (find (String c text)) as [[g rest]|] eqn:Hf.
  - apply Hfind in Hf. rewrite length_append. specialize (IH rest). lia.
  - simpl. specialize (IH text). lia.
Qed.

(** X10. The formatter never lengthens the serialization: every
    replacement is shorter than the text it replaces. *)
Theorem formatter_never_lengthens (data : TreeValue) :
  (length (formatJsonOutput data)
   <= length (JSON_stringify_indented
                (truncateForOutput data default_maxOutputLength)))%nat.
Proof.
  unfold formatJsonOutput, replace, replace_all.
  set (text := JSON_stringify_indented _).
  set (text1 := scan (exec re_items) _ _ text).
  assert (length text1 <= length text)%nat as H1.
  { apply scan_length_le. intros s g rest Hm.
    rewrite exec_re_items in Hm. apply items_marker_at_iff in Hm.
    destruct Hm as (_ & _ & ->).
    unfold items_marker_text. simpl.
      repeat (progress (rewrite ?length_append; simpl)). lia. }
  assert (length (scan (exec re_properties)
                    (expand [Text "..."; Group1; Text " more properties"])
                    (length text1) text1) <= length text1)%nat as H2.
  { apply scan_length_le. intros s g rest Hm.
    rewrite exec_re_properties in Hm. apply properties_either_at_iff in Hm.
    destruct Hm as (_ & _ & [-> | ->]).
    - unfold properties_marker_text. simpl.
      repeat (progress (rewrite ?length_append; simpl)). lia.
    - unfold properties_short_text. simpl.
      repeat (progress (rewrite ?length_append; simpl)). lia. }
  lia.
Qed.

(** ** The connection registry: one client, cached handles *)

Lemma map_get_set_other (m : list (string * Db)) (k k' : string) (d : Db) :
  k <> k' -> map_get (map_set m k d) k' = map_get m k'.
Proof.
  intros Hne. induction m as [|[k0 d0] m IH]; simpl.
  - destruct (String.eqb_spec k k'); [contradiction | reflexivity].
  - destruct (String.eqb_spec k0 k) as [->|Hk]; simpl.
    + destruct (String.eqb_spec k k'); [contradiction | reflexivity].
    + destruct (String.eqb_spec k0 k'); [reflexivity | exact IH].
Qed.

(** With a client, [ensureConnection] only looks the handle up, and
    asks the client for it and caches it when it is not there; when
    [client.db] throws, nothing is cached. *)
Lemma ensureConnection_present (driver : Driver) (dbName : string) (st : State)
    (c : string) :
  mongoClient st = Some c ->
  ensureConnection driver dbName st =
  match map_get (databases st) dbName with
  | Some db => (Returned db, st)
  | None =>
      match clientDb driver (calls st) dbName with
      | Some e => (Threw e, with_call st (ClientDb dbName))
      | None =>
          let db := {| db_client := c; db_name := dbName |} in
          (Returned db,
           with_databases (with_call st (ClientDb dbName))
             (map_set (databases st) dbName db))
      end
  end.
Proof.
  intros Hc. unfold ensureConnection, bind, get_state, ret. rewrite Hc.
  destruct (map_get (databases st) dbName); [reflexivity|].
  rewrite Hc. unfold attempt, call.
  destruct (clientDb driver (calls st) dbName); reflexivity.
Qed.

(** Without a client, it reads the variable, constructs the client,
    keeps it, connects, and goes on as with a client. *)
Lemma ensureConnection_fresh (driver : Driver) (dbName : string) (st : State) :
  mongoClient st = None ->
  ensureConnection driver dbName st =
  match MONGODB_URI st with
  | Some (String c s) =>
      let uri := String c s in
      match newMongoClient driver (calls st) uri with
      | Some e => (Threw e, with_call st (NewMongoClient uri))
      | None =>
          let st1 := with_client (with_call st (NewMongoClient uri)) uri in
          match connect driver (calls st1) uri with
          | Some e => (Threw e, with_call st1 Connect)
          | None => ensureConnection driver dbName (with_call st1 Connect)
          end
      end
  | _ => (Threw (ErrorObj "MONGODB_URI environment variable is not set"), st)
  end.
Proof.
  intros Hc.
  unfold ensureConnection, bind, get_state, getMongoUri, attempt, call, put_state, ret,
    throw.
  rewrite Hc. unfold bind, get_state.
  destruct (MONGODB_URI st) as [[|a s]|]; try reflexivity.
  destruct (newMongoClient driver (calls st) (String a s)); [reflexivity|].
  cbn [calls with_call with_client mongoClient].
  destruct (connect driver (calls st ++ [NewMongoClient (String a s)]) (String a s));
    reflexivity.
Qed.

Lemma ensureConnection_again_present (driver : Driver) (dbName : string)
    (st st' : State) (c : string) (db : Db) :
  mongoClient st = Some c ->
  ensureConnection driver dbName st = (Returned db, st') ->
  ensureConnection driver dbName st' = (Returned db, st').
Proof.
  intros Hc Hres. rewrite (ensureConnection_present _ _ _ _ Hc) in Hres.
  destruct (map_get (databases st) dbName) as [db0|] eqn:Hg.
  - injection Hres as <- <-. now rewrite (ensureConnection_present _ _ _ _ Hc), Hg.
  - destruct (clientDb driver (calls st) dbName); [discriminate|].
    cbv zeta in Hres. injection Hres as <- <-.
    rewrite (ensureConnection_present _ _ _ c) by exact Hc.
    cbn [databases with_databases]. now rewrite map_get_set.
Qed.

(** X11. The registry memoizes: after [ensureConnection] has returned a
    handle, the same call returns the same handle, calls no driver
    function and changes nothing. *)
Theorem ensureConnection_memoized (driver : Driver) (dbName : string)
    (st st' : State) (db : Db) :
  ensureConnection driver dbName st = (Returned db, st') ->
  ensureConnection driver dbName st' = (Returned db, st').
Proof.
  intros Hres. destruct (mongoClient st) as [c|] eqn:Hc.
  - exact (ensureConnection_again_present _ _ _ _ _ _ Hc Hres).
  - rewrite (ensureConnection_fresh _ _ _ Hc) in Hres.
    destruct (MONGODB_URI st) as [[|a s]|]; try discriminate.
    cbv zeta in Hres.
    destruct (newMongoClient driver (calls st) (String a s)); [discriminate|].
    destruct (connect driver _ (String a s)); [discriminate|].
    eapply ensureConnection_again_present; [|exact Hres]. reflexivity.
Qed.

Lemma ensureConnection_memoized_witness :
  let uri := "mongodb://localhost:27017" in
  let db := {| db_client := uri; db_name := "shop" |} in
  let st' := {| MONGODB_URI := Some uri; mongoClient := Some uri;
                databases := [("shop", db)];
                calls := [NewMongoClient uri; Connect; ClientDb "shop"] |} in
  ensureConnection sample_driver "shop" (fresh_process (Some uri)) = (Returned db, st')
  /\ ensureConnection sample_driver "shop" st' = (Returned db, st').
Proof.
  intros uri db st'. split; [reflexivity|].
  apply (ensureConnection_memoized sample_driver "shop" (fresh_process (Some uri))).
  reflexivity.
Defined.

(** X12. Once a client exists, [ensureConnection] never reads the
    variable, constructs or connects a client.  It returns the handle
    cached under the name; or it makes the one call [client.db]: when
    that returns, the handle is cached and returned, when that throws,
    the same value is thrown and the cache is as before.  The client
    and every handle cached before stay. *)
Theorem ensureConnection_with_client (driver : Driver) (dbName : string)
    (st : State) (c : string) :
  mongoClient st = Some c ->
  exists outcome st',
    ensureConnection driver dbName st = (outcome, st')
    /\ mongoClient st' = Some c
    /\ MONGODB_URI st' = MONGODB_URI st
    /\ calls st' = (calls st ++ match map_get (databases st) dbName with
                               | Some _ => []
                               | None => [ClientDb dbName]
                               end)%list
    /\ (forall k d, map_get (databases st) k = Some d ->
                    map_get (databases st') k = Some d)
    /\ match outcome with
       | Returned db =>
           map_get (databases st') dbName = Some db
           /\ (map_get (databases st) dbName = None ->
               clientDb driver (calls st) dbName = None
               /\ db = {| db_client := c; db_name := dbName |})
       | Threw e =>
           map_get (databases st) dbName = None
           /\ clientDb driver (calls st) dbName = Some e
           /\ databases st' = databases st
       end.
Proof.
  intros Hc. rewrite (ensureConnection_present _ _ _ _ Hc).
  destruct (map_get (databases st) dbName) as [db|] eqn:Hg.
  - exists (Returned db), st. rewrite app_nil_r.
    repeat split; auto; discriminate.
  - destruct (clientDb driver (calls st) dbName) as [e|] eqn:Hdb.
    + eexists. eexists. split; [reflexivity|].
      cbn [mongoClient MONGODB_URI calls databases with_call].
      repeat split; auto.
    + eexists. eexists. split; [reflexivity|].
      cbn [mongoClient MONGODB_URI calls databases with_databases with_call].
      repeat split; auto.
      * intros k d Hk. rewrite map_get_set_other; [exact Hk|].
        intros ->. congruence.
      * apply map_get_set.
Qed.

Lemma ensureConnection_with_client_witness :
  let uri := "mongodb://localhost:27017" in
  let st := {| MONGODB_URI := None; mongoClient := Some uri;
               databases := [("shop", {| db_client := uri; db_name := "shop" |})];
               calls := [] |} in
  exists outcome st',
    ensureConnection strict_driver "a.b" st = (outcome, st')
    /\ calls st' = [ClientDb "a.b"]
    /\ map_get (databases st') "shop" = Some {| db_client := uri; db_name := "shop" |}
    /\ outcome = Threw (ErrorObj "database names cannot contain the character '.'").
Proof.
  intros uri st.
  destruct (ensureConnection_with_client strict_driver "a.b" st uri eq_refl)
    as (outcome & st' & Hres & _ & _ & Hcalls & Hkeep & Hout).
  exists outcome, st'. repeat split; [exact Hres | exact Hcalls | |].
  - apply Hkeep. reflexivity.
  - destruct outcome as [db|e].
    + destruct Hout as [_ Hout]. destruct (Hout eq_refl) as [Hdb _]. discriminate.
    + destruct Hout as (_ & Hdb & _). now injection Hdb as <-.
Defined.

(** X13. A failed [connect] leaves the constructed client in place: the
    call throws the driver's error, and every later [ensureConnection]
    finds that client: it does not construct or connect again, it makes
    at most the one call [client.db], and keeps the client. *)
Theorem failed_connect_keeps_client (driver : Driver) (dbName later : string)
    (st : State) (c : ascii) (s : string) (e : Thrown) :
  mongoClient st = None ->
  MONGODB_URI st = Some (String c s) ->
  newMongoClient driver (calls st) (String c s) = None ->
  connect driver (calls st ++ [NewMongoClient (String c s)]) (String c s) = Some e ->
  exists st',
    ensureConnection driver dbName st = (Threw e, st')
    /\ mongoClient st' = Some (String c s)
    /\ databases st' = databases st
    /\ calls st' = (calls st ++ [NewMongoClient (String c s); Connect])%list
    /\ exists outcome st'',
         ensureConnection driver later st' = (outcome, st'')
         /\ mongoClient st'' = Some (String c s)
         /\ calls st'' = (calls st' ++ match map_get (databases st) later with
                                       | Some _ => []
                                       | None => [ClientDb later]
                                       end)%list
         /\ (clientDb driver (calls st') later = None ->
             exists db, outcome = Returned db).
Proof.
  intros Hc Huri Hnew Hconn.
  rewrite (ensureConnection_fresh _ _ _ Hc), Huri. cbv zeta. rewrite Hnew.
  cbn [calls with_call with_client]. rewrite Hconn.
  eexists. split; [reflexivity|].
  cbn [mongoClient databases calls with_call with_client].
  repeat split.
  - now rewrite <- app_assoc.
  - rewrite (ensureConnection_present _ _ _ (String c s)) by reflexivity.
    cbn [databases calls with_call with_client].
    destruct (map_get (databases st) later) as [db|].
    + eexists. eexists. split; [reflexivity|]. rewrite app_nil_r.
      repeat split. intros _. now exists db.
    + destruct (clientDb driver _ later) as [e'|].
      * eexists. eexists. split; [reflexivity|]. repeat split. discriminate.
      * eexists. eexists. split; [reflexivity|]. repeat split.
        intros _. eexists. reflexivity.
Qed.

Lemma failed_connect_keeps_client_witness :
  let uri := "mongodb://localhost:27017" in
  exists st',
    ensureConnection unreachable_driver "shop" (fresh_process (Some uri))
    = (Threw (ErrorObj "connect ECONNREFUSED 127.0.0.1:27017"), st')
    /\ exists outcome st'',
         ensureConnection unreachable_driver "shop" st' = (outcome, st'')
         /\ calls st'' = [NewMongoClient uri; Connect; ClientDb "shop"]
         /\ exists db, outcome = Returned db.
Proof.
  intros uri.
  destruct (failed_connect_keeps_client unreachable_driver "shop" "shop"
              (fresh_process (Some uri)) "m"%char "ongodb://localhost:27017"
              (ErrorObj "connect ECONNREFUSED 127.0.0.1:27017")
              eq_refl eq_refl eq_refl eq_refl)
    as (st' & Hres & _ & _ & Hcalls & outcome & st'' & Hlater & _ & Hcalls' & Hout).
  exists st'. split; [exact Hres|].
  exists outcome, st''. split; [exact Hlater|]. split.
  - rewrite Hcalls', Hcalls. reflexivity.
  - apply Hout. reflexivity.
Defined.

(** ** The tool handlers *)

(** X14. An empty connection URI is a missing one: with no client and
    the variable set to the empty string, every tool invocation fails
    with the configuration error and leaves the process as it was. *)
Theorem empty_uri_is_configuration_error (driver : Driver) (inv : Invocation)
    (st : State) :
  MONGODB_URI st = Some "" ->
  mongoClient st = None ->
  handler driver inv st
  = (Threw (ErrorObj (failure_prefix inv
                        ++ "MONGODB_URI environment variable is not set")), st).
Proof.
  intros Huri Hclient.
  destruct inv; unfold handler, failing, try_catch, bind;
    rewrite (ensureConnection_empty_uri _ _ _ Huri Hclient); reflexivity.
Qed.

Lemma empty_uri_is_configuration_error_witness :
  handler sample_driver (ListCollectionsTool "shop") (fresh_process (Some ""))
  = (Threw (ErrorObj
              "Failed to list collections: MONGODB_URI environment variable is not set"),
     fresh_process (Some "")).
Proof.
  apply (empty_uri_is_configuration_error sample_driver (ListCollectionsTool "shop")
           (fresh_process (Some ""))); reflexivity.
Defined.

(** The process after a handler that got its handle. *)
Lemma handler_state_after_handle (driver : Driver) (inv : Invocation)
    (st st1 : State) (db : Db) :
  ensureConnection driver (database_of inv) st = (Returned db, st1) ->
  snd (handler driver inv st) = with_call st1 (operation_of inv (db_name db)).
Proof.
  intros Hconn.
  destruct inv; unfold handler, failing, try_catch, bind, call, operation_of;
    simpl database_of in Hconn; rewrite Hconn;
    repeat match goal with
           | |- context [if ?b then _ else _] => destruct b
           | |- context [match ?x with Returned _ => _ | Threw _ => _ end] => destruct x
           end; reflexivity.
Qed.

(** The process after a handler that got no handle. *)
Lemma handler_state_after_throw (driver : Driver) (inv : Invocation)
    (st st1 : State) (e : Thrown) :
  ensureConnection driver (database_of inv) st = (Threw e, st1) ->
  handler driver inv st
  = (Threw (ErrorObj (failure_prefix inv ++ message_of e)), st1).
Proof.
  intros Hconn.
  destruct inv; unfold handler, failing, try_catch, bind;
    simpl database_of in Hconn; rewrite Hconn; reflexivity.
Qed.

(** X15. One invocation, one operation: once the handle is there, the
    handler calls the driver exactly once, with the operation of the
    tool on that handle, and changes nothing else; whether the operation
    returns or throws, it is not called again. *)
Theorem handler_single_operation (driver : Driver) (inv : Invocation)
    (st st1 : State) (db : Db) :
  ensureConnection driver (database_of inv) st = (Returned db, st1) ->
  exists outcome,
    handler driver inv st
    = (outcome, with_call st1 (operation_of inv (db_name db))).
Proof.
  intros Hconn. exists (fst (handler driver inv st)).
  rewrite <- (handler_state_after_handle _ _ _ _ _ Hconn).
  now destruct (handler driver inv st).
Qed.

Lemma handler_single_operation_witness :
  let uri := "mongodb://localhost:27017" in
  let db := {| db_client := uri; db_name := "shop" |} in
  let st := {| MONGODB_URI := Some uri; mongoClient := Some uri;
               databases := [("shop", db)]; calls := [] |} in
  exists outcome,
    handler sample_driver
      (UpdateDocument "shop" "orders" (TObj []) (TObj [("paid", TBool true)]) None) st
    = (outcome,
       with_call st (UpdateOne "shop" "orders" (TObj []) (TObj [("paid", TBool true)]))).
Proof.
  intros uri db st.
  apply (handler_single_operation sample_driver
           (UpdateDocument "shop" "orders" (TObj []) (TObj [("paid", TBool true)]) None)
           st st db).
  reflexivity.
Defined.

(** X16. No handle, no operation: when [ensureConnection] throws, for
    whatever reason, the handler calls no operation, leaves the process
    as [ensureConnection] left it and throws an [Error] whose message
    is the tool's prefix followed by the message of what was thrown. *)
Theorem handler_without_handle (driver : Driver) (inv : Invocation)
    (st st1 : State) (e : Thrown) :
  ensureConnection driver (database_of inv) st = (Threw e, st1) ->
  handler driver inv st
  = (Threw (ErrorObj (failure_prefix inv ++ message_of e)), st1).
Proof.
  apply handler_state_after_throw.
Qed.

Lemma handler_without_handle_witness :
  let uri := "mongodb://localhost:27017" in
  handler unreachable_driver (CountDocumentsTool "shop" "orders" None)
    (fresh_process (Some uri))
  = (Threw (ErrorObj
              "Failed to count documents: connect ECONNREFUSED 127.0.0.1:27017"),
     {| MONGODB_URI := Some uri; mongoClient := Some uri; databases := [];
        calls := [NewMongoClient uri; Connect] |}).
Proof.
  intros uri.
  exact (handler_without_handle unreachable_driver
           (CountDocumentsTool "shop" "orders" None) (fresh_process (Some uri))
           {| MONGODB_URI := Some uri; mongoClient := Some uri; databases := [];
              calls := [NewMongoClient uri; Connect] |}
           (ErrorObj "connect ECONNREFUSED 127.0.0.1:27017") eq_refl).
Defined.

(** X17. Whatever makes a handler fail, what it throws is an [Error]
    whose message is the prefix of its tool followed by the message of
    the very value thrown inside its [try] block (by [ensureConnection]
    or by the operation), or by [Unknown error] when that value is no
    [Error]. *)
Theorem handler_failure_message (driver : Driver) (inv : Invocation)
    (st st' : State) (e : Thrown) :
  handler driver inv st = (Threw e, st') ->
  exists cause,
    thrown_in driver inv st cause
    /\ e = ErrorObj (failure_prefix inv
                       ++ match cause with
                          | ErrorObj message => message
                          | NonError => "Unknown error"
                          end).
Proof.
  intros H. unfold thrown_in.
  destruct (ensureConnection driver (database_of inv) st) as [[db|e0] st1] eqn:Hconn.
  - destruct inv;
      unfold handler, failing, try_catch, bind, call, throw, ret in H;
      simpl database_of in Hconn; rewrite Hconn in H;
      repeat match type of H with
             | context [if ?b then _ else _] => destruct b eqn:?
             | context [match ?x with Returned _ => _ | Threw _ => _ end] =>
                 destruct x as [?|cause] eqn:?
             end;
      try discriminate; injection H as <- _; exists cause;
      (split; [right; exists db, st1; split; [reflexivity|];
               cbn [operation_failure];
               repeat match goal with
                      | Hq : ?b = _ |- context [if ?b then _ else _] => rewrite Hq
                      | Hq : ?x = Threw _ |- context [thrown_by ?x] => rewrite Hq
                      end; reflexivity
              | destruct cause; reflexivity]).
  - rewrite (handler_state_after_throw _ _ _ _ _ Hconn) in H.
    injection H as <- _. exists e0. split.
    + left. now exists st1.
    + destruct e0; reflexivity.
Qed.

Lemma handler_failure_message_witness :
  let uri := "mongodb://localhost:27017" in
  let st' := {| MONGODB_URI := Some uri; mongoClient := Some uri;
                databases := [("shop", {| db_client := uri; db_name := "shop" |})];
                calls := [NewMongoClient uri; Connect; ClientDb "shop";
                          CountDocuments "shop" "orders" (TObj [])] |} in
  handler throwing_driver (CountDocumentsTool "shop" "orders" None)
    (fresh_process (Some uri))
  = (Threw (ErrorObj "Failed to count documents: Unknown error"), st')
  /\ exists cause,
       thrown_in throwing_driver (CountDocumentsTool "shop" "orders" None)
         (fresh_process (Some uri)) cause
       /\ ErrorObj "Failed to count documents: Unknown error"
          = ErrorObj (failure_prefix (CountDocumentsTool "shop" "orders" None)
                        ++ match cause with
                           | ErrorObj message => message
                           | NonError => "Unknown error"
                           end).
Proof.
  intros uri st'. split; [reflexivity|].
  exact (handler_failure_message throwing_driver
           (CountDocumentsTool "shop" "orders" None) (fresh_process (Some uri)) st'
           (ErrorObj "Failed to count documents: Unknown error") eq_refl).
Defined.

Lemma operation_never_connects (inv : Invocation) (db : string) :
  connects (operation_of inv db) = false.
Proof.
  destruct inv; simpl; try reflexivity;
    match goal with |- context [if ?b then _ else _] => destruct b end; reflexivity.
Qed.

Lemma handler_step_with_client (driver : Driver) (inv : Invocation)
    (st : State) (c : string) :
  mongoClient st = Some c ->
  mongoClient (snd (handler driver inv st)) = Some c
  /\ exists new,
       calls (snd (handler driver inv st)) = (calls st ++ new)%list
       /\ existsb connects new = false.
Proof.
  intros Hc.
  pose proof (ensureConnection_present driver (database_of inv) st c Hc) as Hp.
  destruct (map_get (databases st) (database_of inv)) as [db|].
  - rewrite (handler_state_after_handle _ _ _ _ _ Hp). split; [exact Hc|].
    eexists. split; [reflexivity|].
    simpl. now rewrite operation_never_connects.
  - destruct (clientDb driver (calls st) (database_of inv)).
    + rewrite (handler_state_after_throw _ _ _ _ _ Hp).
      split; [exact Hc|]. eexists. split; reflexivity.
    + cbv zeta in Hp. rewrite (handler_state_after_handle _ _ _ _ _ Hp).
      split; [exact Hc|].
      cbn [calls with_call with_databases db_name]. rewrite <- app_assoc.
      eexists. split; [reflexivity|].
      simpl. now rewrite operation_never_connects.
Qed.

(** X18. One client for the life of the process: once a client exists,
    no run of invocations, whatever the tools and their outcomes,
    constructs a client or connects again, and the client stays. *)
Theorem one_client_for_the_process (driver : Driver) (invs : list Invocation) :
  forall (st : State) (c : string),
    mongoClient st = Some c ->
    mongoClient (run driver invs st) = Some c
    /\ exists new,
         calls (run driver invs st) = (calls st ++ new)%list
         /\ existsb connects new = false.
Proof.
  induction invs as [|inv rest IH]; intros st c Hc; simpl.
  - split; [exact Hc|]. exists []. now rewrite app_nil_r.
  - destruct (handler_step_with_client driver inv st c Hc) as (Hc1 & new1 & Hn1 & Hx1).
    destruct (IH _ c Hc1) as (Hc2 & new2 & Hn2 & Hx2).
    split; [exact Hc2|].
    exists (new1 ++ new2)%list. split.
    + now rewrite Hn2, Hn1, app_assoc.
    + rewrite existsb_app, Hx1, Hx2. reflexivity.
Qed.

Lemma one_client_for_the_process_witness :
  let uri := "mongodb://localhost:27017" in
  let st := {| MONGODB_URI := Some uri; mongoClient := Some uri;
               databases := []; calls := [NewMongoClient uri; Connect] |} in
  let invs := [CountDocumentsTool "shop" "orders" None;
               ListCollectionsTool "logs";
               DeleteDocument "shop" "orders" (TObj []) (Some true)] in
  mongoClient (run sample_driver invs st) = Some uri
  /\ exists new,
       calls (run sample_driver invs st) = (calls st ++ new)%list
       /\ existsb connects new = false.
Proof.
  intros uri st invs.
  apply (one_client_for_the_process sample_driver invs st uri). reflexivity.
Defined.

Lemma cache_consistent_set (m : list (string * Db)) (k c : string) :
  cache_consistent m ->
  cache_consistent (map_set m k {| db_client := c; db_name := k |}).
Proof.
  intros H k' d Hg. destruct (String.eqb_spec k k') as [<-|Hne].
  - rewrite map_get_set in Hg. now injection Hg as <-.
  - rewrite map_get_set_other in Hg by exact Hne. now apply H.
Qed.

Lemma ensureConnection_consistent_present (driver : Driver) (dbName : string)
    (st : State) (c : string) :
  mongoClient st = Some c ->
  cache_consistent (databases st) ->
  cache_consistent (databases (snd (ensureConnection driver dbName st)))
  /\ forall db st',
       ensureConnection driver dbName st = (Returned db, st') -> db_name db = dbName.
Proof.
  intros Hc Hcons. rewrite (ensureConnection_present _ _ _ _ Hc).
  destruct (map_get (databases st) dbName) as [db0|] eqn:Hg.
  - split; [exact Hcons|]. intros db st' [= <- _]. now apply Hcons.
  - destruct (clientDb driver (calls st) dbName).
    + split; [exact Hcons | intros db st'; discriminate].
    + cbv zeta. split.
      * cbn [snd databases with_databases]. now apply cache_consistent_set.
      * intros db st' [= <- _]. reflexivity.
Qed.

Lemma ensureConnection_consistent (driver : Driver) (dbName : string) (st : State) :
  cache_consistent (databases st) ->
  cache_consistent (databases (snd (ensureConnection driver dbName st)))
  /\ forall db st',
       ensureConnection driver dbName st = (Returned db, st') -> db_name db = dbName.
Proof.
  intros Hcons. destruct (mongoClient st) as [c|] eqn:Hc.
  - now apply (ensureConnection_consistent_present _ _ _ c).
  - rewrite (ensureConnection_fresh _ _ _ Hc).
    destruct (MONGODB_URI st) as [[|a s]|];
      try (split; [exact Hcons | intros db st'; discriminate]).
    cbv zeta.
    destruct (newMongoClient driver (calls st) (String a s));
      [split; [exact Hcons | intros db st'; discriminate]|].
    destruct (connect driver _ (String a s));
      [split; [exact Hcons | intros db st'; discriminate]|].
    apply (ensureConnection_consistent_present _ _ _ (String a s));
      [reflexivity | exact Hcons].
Qed.

Lemma handler_consistent (driver : Driver) (inv : Invocation) (st : State) :
  cache_consistent (databases st) ->
  cache_consistent (databases (snd (handler driver inv st))).
Proof.
  intros Hcons.
  destruct (ensureConnection_consistent driver (database_of inv) st Hcons) as [H _].
  destruct (ensureConnection driver (database_of inv) st) as [[db|e] st1] eqn:Hconn.
  - rewrite (handler_state_after_handle _ _ _ _ _ Hconn). exact H.
  - rewrite (handler_state_after_throw _ _ _ _ _ Hconn). exact H.
Qed.

Lemma run_consistent (driver : Driver) (invs : list Invocation) :
  forall st, cache_consistent (databases st) ->
             cache_consistent (databases (run driver invs st)).
Proof.
  induction invs as [|inv rest IH]; intros st Hcons; simpl; [exact Hcons|].
  apply IH. now apply handler_consistent.
Qed.

(** X19. The cache never hands out the handle of another database:
    starting from a cache in which every handle sits under its own name
    (the empty cache of a new process is one), after any run of
    invocations [ensureConnection] returns for a name the handle of that
    name, and the cache stays that way. *)
Theorem registry_returns_requested_database (driver : Driver)
    (invs : list Invocation) (st : State) (dbName : string) (db : Db) (st' : State) :
  cache_consistent (databases st) ->
  ensureConnection driver dbName (run driver invs st) = (Returned db, st') ->
  db_name db = dbName /\ cache_consistent (databases st').
Proof.
  intros Hcons Hres.
  pose proof (run_consistent driver invs st Hcons) as Hrun.
  destruct (ensureConnection_consistent driver dbName _ Hrun) as [Hc Hn].
  rewrite Hres in Hc. split; [now apply (Hn db st') | exact Hc].
Qed.

Lemma registry_returns_requested_database_witness :
  let uri := "mongodb://localhost:27017" in
  let invs := [ListCollectionsTool "logs"; CountDocumentsTool "shop" "orders" None] in
  exists db st',
    ensureConnection sample_driver "logs" (run sample_driver invs (fresh_process (Some uri)))
    = (Returned db, st')
    /\ db_name db = "logs" /\ cache_consistent (databases st').
Proof.
  intros uri invs.
  eexists. eexists. split; [reflexivity|].
  apply (registry_returns_requested_database sample_driver invs
           (fresh_process (Some uri)) "logs").
  - intros k d H. discriminate.
  - reflexivity.
Defined.

(** X20. The connection is made by the first invocation, not before:
    in a process with the variable set and no client, when the driver
    accepts the URI, connects and hands out the handle of the named
    database, the handler constructs the client with that URI, connects,
    takes the handle and calls its one operation, in this order; the
    client and the handle are kept. *)
Theorem first_invocation_connects (driver : Driver) (inv : Invocation)
    (st : State) (c : ascii) (s : string) :
  mongoClient st = None ->
  map_get (databases st) (database_of inv) = None ->
  MONGODB_URI st = Some (String c s) ->
  newMongoClient driver (calls st) (String c s) = None ->
  connect driver (calls st ++ [NewMongoClient (String c s)]) (String c s) = None ->
  clientDb driver (calls st ++ [NewMongoClient (String c s); Connect])
    (database_of inv) = None ->
  calls (snd (handler driver inv st))
  = (calls st ++ [NewMongoClient (String c s); Connect; ClientDb (database_of inv);
                  operation_of inv (database_of inv)])%list
  /\ mongoClient (snd (handler driver inv st)) = Some (String c s)
  /\ map_get (databases (snd (handler driver inv st))) (database_of inv)
     = Some {| db_client := String c s; db_name := database_of inv |}.
Proof.
  intros Hc Hg Huri Hnew Hconn Hhandle.
  assert (exists st1,
             ensureConnection driver (database_of inv) st
             = (Returned {| db_client := String c s; db_name := database_of inv |}, st1)
             /\ calls st1 = (calls st ++ [NewMongoClient (String c s); Connect;
                                          ClientDb (database_of inv)])%list
             /\ mongoClient st1 = Some (String c s)
             /\ map_get (databases st1) (database_of inv)
                = Some {| db_client := String c s; db_name := database_of inv |})
    as (st1 & Hres & Hcalls & Hclient & Hdb).
  { rewrite (ensureConnection_fresh _ _ _ Hc), Huri. cbv zeta. rewrite Hnew.
    cbn [calls with_call with_client]. rewrite Hconn.
    rewrite (ensureConnection_present _ _ _ (String c s)) by reflexivity.
    cbn [databases calls with_call with_client]. rewrite Hg.
    rewrite <- app_assoc. cbn [app]. rewrite Hhandle. cbv zeta.
    eexists. split; [reflexivity|].
    cbn [calls mongoClient databases with_call with_client with_databases].
    repeat split.
    - now rewrite <- !app_assoc.
    - apply map_get_set. }
  rewrite (handler_state_after_handle _ _ _ _ _ Hres).
  cbn [calls mongoClient databases with_call db_name].
  repeat split; [|exact Hclient | exact Hdb].
  rewrite Hcalls, <- app_assoc. reflexivity.
Qed.

Lemma first_invocation_connects_witness :
  let uri := "mongodb://localhost:27017" in
  calls (snd (handler sample_driver
                (FindDocuments "shop" "orders" None (Some 5%Z))
                (fresh_process (Some uri))))
  = [NewMongoClient uri; Connect; ClientDb "shop";
     FindToArray "shop" "orders" (TObj []) (Some 5%Z)].
Proof.
  intros uri.
  destruct (first_invocation_connects sample_driver
              (FindDocuments "shop" "orders" None (Some 5%Z))
              (fresh_process (Some uri)) "m"%char "ongodb://localhost:27017"
              eq_refl eq_refl eq_refl eq_refl eq_refl eq_refl) as (H & _ & _).
  exact H.
Defined.

(** X21. A client whose construction throws is not kept: the handler
    fails with the constructor's message under its prefix, no client is
    stored and nothing is cached, so the next invocation reads the
    variable and constructs again. *)
Theorem failed_construction_keeps_no_client (driver : Driver) (inv : Invocation)
    (st : State) (c : ascii) (s : string) (e : Thrown) :
  mongoClient st = None ->
  MONGODB_URI st = Some (String c s) ->
  newMongoClient driver (calls st) (String c s) = Some e ->
  handler driver inv st
  = (Threw (ErrorObj (failure_prefix inv ++ message_of e)),
     with_call st (NewMongoClient (String c s)))
  /\ mongoClient (with_call st (NewMongoClient (String c s))) = None
  /\ databases (with_call st (NewMongoClient (String c s))) = databases st.
Proof.
  intros Hc Huri Hnew. repeat split; [|exact Hc].
  apply handler_state_after_throw.
  rewrite (ensureConnection_fresh _ _ _ Hc), Huri. cbv zeta. now rewrite Hnew.
Qed.

Lemma failed_construction_keeps_no_client_witness :
  let rejecting :=
    {| newMongoClient := fun _ _ => Some (ErrorObj "Invalid scheme");
       connect := connect sample_driver;
       clientDb := clientDb sample_driver;
       insertOne := insertOne sample_driver;
       findToArray := findToArray sample_driver;
       updateOne := updateOne sample_driver;
       updateMany := updateMany sample_driver;
       deleteOne := deleteOne sample_driver;
       deleteMany := deleteMany sample_driver;
       aggregateToArray := aggregateToArray sample_driver;
       countDocuments := countDocuments sample_driver;
       listCollections := listCollections sample_driver |} in
  handler rejecting (ListCollectionsTool "shop") (fresh_process (Some "localhost"))
  = (Threw (ErrorObj "Failed to list collections: Invalid scheme"),
     {| MONGODB_URI := Some "localhost"; mongoClient := None; databases := [];
        calls := [NewMongoClient "localhost"] |}).
Proof.
  intros rejecting.
  destruct (failed_construction_keeps_no_client rejecting (ListCollectionsTool "shop")
              (fresh_process (Some "localhost")) "l"%char "ocalhost"
              (ErrorObj "Invalid scheme") eq_refl eq_refl eq_refl) as (H & _ & _).
  exact H.
Defined.
